(** * Nuxt: the Vite logger shim and the module-id classifier

    A shallow embedding of two source files of the repository:

    - [packages/nuxt/src/core/utils/plugins.ts]: [isVue], [isJS],
      [getLoader], [matchWithStringOrRegex];
    - the Vite logger adapter ([createViteLogger] with its [output] closure
      and the module-scoped duplicate counter).

    JavaScript strings are modelled as [string]: a sequence of 8-bit units
    holding the UTF-8 form of the text.  A thrown exception is [None] in the
    [option] monad.  Functions imported from other packages ([node:url],
    [ufo], [pathe], [consola], [std-env], the public-assets resolver) are
    parameters, gathered in type classes; reference instances are given for
    concrete runs. *)

From Stdlib Require Import Ascii String NArith.
From stdpp Require Import gmap strings list pretty.

Open Scope string_scope.

(** ** JavaScript built-ins used by the two files *)

Module JS.

(** [s.startsWith(p)] *)
Definition startsWith (s p : string) : bool := String.prefix p s.

(** [s.endsWith(p)]: [p] is one of the suffixes of [s]. *)
Fixpoint endsWith (s p : string) : bool :=
  String.eqb s p ||
  match s with
  | EmptyString => false
  | String _ s' => endsWith s' p
  end.

(** [s.includes(p)]: some suffix of [s] starts with [p]. *)
Fixpoint includes (s p : string) : bool :=
  startsWith s p ||
  match s with
  | EmptyString => false
  | String _ s' => includes s' p
  end.

(** Truthiness of a string: only the empty string is falsy. *)
Definition truthy (s : string) : bool := negb (String.eqb s "").

(** *** [decodeURIComponent]

    The Decode operation of ECMA-262 with an empty reserved set.  The
    string is first cut into literal units and [%XX] escapes; a [%] that
    is not followed by two hexadecimal digits throws.  An escape below
    0x80 yields that unit; an escape with the high bit set must start a
    well-formed UTF-8 sequence made of escapes only, which yields its
    octets; anything else throws [URIError]. *)

Definition hexDigit (c : ascii) : option N :=
  let n := N_of_ascii c in
  if ((48 <=? n) && (n <=? 57))%N then Some (n - 48)%N
  else if ((65 <=? n) && (n <=? 70))%N then Some (n - 55)%N
  else if ((97 <=? n) && (n <=? 102))%N then Some (n - 87)%N
  else None.

Inductive uriToken :=
| Unit (c : ascii)
| Escape (b : N).

Fixpoint uriTokens (s : string) : option (list uriToken) :=
  match s with
  | EmptyString => Some []
  | String c s' =>
      if Ascii.eqb c "%" then
        match s' with
        | String h (String l rest) =>
            match hexDigit h, hexDigit l with
            | Some x, Some y =>
                ts ← uriTokens rest; Some (Escape (16 * x + y)%N :: ts)
            | _, _ => None
            end
        | _ => None
        end
      else ts ← uriTokens s'; Some (Unit c :: ts)
  end.

Definition between (lo hi b : N) : bool := ((lo <=? b) && (b <=? hi))%N.

(** Well-formed UTF-8 byte sequences (Unicode, table 3-7). *)
Definition utf8_2 (b1 b2 : N) : bool :=
  between 194 223 b1 && between 128 191 b2.

Definition utf8_3 (b1 b2 b3 : N) : bool :=
  ((b1 =? 224)%N && between 160 191 b2 && between 128 191 b3)
  || (between 225 236 b1 && between 128 191 b2 && between 128 191 b3)
  || ((b1 =? 237)%N && between 128 159 b2 && between 128 191 b3)
  || (between 238 239 b1 && between 128 191 b2 && between 128 191 b3).

Definition utf8_4 (b1 b2 b3 b4 : N) : bool :=
  ((b1 =? 240)%N && between 144 191 b2 && between 128 191 b3
     && between 128 191 b4)
  || (between 241 243 b1 && between 128 191 b2 && between 128 191 b3
        && between 128 191 b4)
  || ((b1 =? 244)%N && between 128 143 b2 && between 128 191 b3
        && between 128 191 b4).

Definition codeUnit (b : N) : ascii := ascii_of_N b.

Fixpoint decodeTokens (ts : list uriToken) : option string :=
  match ts with
  | [] => Some ""
  | Unit c :: r => s ← decodeTokens r; Some (String c s)
  | Escape b1 :: r =>
      if (b1 <? 128)%N then s ← decodeTokens r; Some (String (codeUnit b1) s)
      else if between 192 223 b1 then
        match r with
        | Escape b2 :: r2 =>
            if utf8_2 b1 b2
            then s ← decodeTokens r2;
                 Some (String (codeUnit b1) (String (codeUnit b2) s))
            else None
        | _ => None
        end
      else if between 224 239 b1 then
        match r with
        | Escape b2 :: Escape b3 :: r3 =>
            if utf8_3 b1 b2 b3
            then s ← decodeTokens r3;
                 Some (String (codeUnit b1) (String (codeUnit b2)
                        (String (codeUnit b3) s)))
            else None
        | _ => None
        end
      else if between 240 247 b1 then
        match r with
        | Escape b2 :: Escape b3 :: Escape b4 :: r4 =>
            if utf8_4 b1 b2 b3 b4
            then s ← decodeTokens r4;
                 Some (String (codeUnit b1) (String (codeUnit b2)
                        (String (codeUnit b3) (String (codeUnit b4) s))))
            else None
        | _ => None
        end
      else None
  end.

Definition decodeURIComponent (s : string) : option string :=
  ts ← uriTokens s; decodeTokens ts.

(** *** [trim]

    [trim] strips the code points of WhiteSpace and of LineTerminator
    (ECMA-262, 12.2 and 12.3) from both ends.  In the UTF-8 form of the
    text each of them takes one, two or three units. *)

(** The code point of a well-formed UTF-8 sequence of one, two or three
    units. *)
Definition codePoint (u : string) : option N :=
  match u with
  | String c1 EmptyString =>
      let b1 := N_of_ascii c1 in
      if (b1 <? 128)%N then Some b1 else None
  | String c1 (String c2 EmptyString) =>
      let b1 := N_of_ascii c1 in
      let b2 := N_of_ascii c2 in
      if utf8_2 b1 b2 then Some ((b1 - 192) * 64 + (b2 - 128))%N else None
  | String c1 (String c2 (String c3 EmptyString)) =>
      let b1 := N_of_ascii c1 in
      let b2 := N_of_ascii c2 in
      let b3 := N_of_ascii c3 in
      if utf8_3 b1 b2 b3
      then Some ((b1 - 224) * 4096 + (b2 - 128) * 64 + (b3 - 128))%N
      else None
  | _ => None
  end.

(** LineTerminator: LF, CR, LINE SEPARATOR and PARAGRAPH SEPARATOR. *)
Definition isLineTerminator (p : N) : bool :=
  ((p =? 0x0A) || (p =? 0x0D) || (p =? 0x2028) || (p =? 0x2029))%N.

(** WhiteSpace: TAB, VT, FF, ZWNBSP and the category Zs (SPACE, NBSP,
    U+1680, U+2000 to U+200A, U+202F, U+205F, U+3000). *)
Definition isWhiteSpace (p : N) : bool :=
  ((p =? 0x09) || (p =? 0x0B) || (p =? 0x0C) || (p =? 0xFEFF)
   || (p =? 0x20) || (p =? 0xA0) || (p =? 0x1680)
   || between 0x2000 0x200A p
   || (p =? 0x202F) || (p =? 0x205F) || (p =? 0x3000))%N.

(** The units [u] are one code point that [trim] strips. *)
Definition isStripped (u : string) : bool :=
  match codePoint u with
  | Some p => isWhiteSpace p || isLineTerminator p
  | None => false
  end.

(** The number of units of the stripped code point that [s] starts with;
    0 when it starts with none. *)
Definition whiteSpaceAhead (s : string) : nat :=
  match s with
  | EmptyString => 0
  | String c1 s1 =>
      if isStripped (String c1 "") then 1
      else
        match s1 with
        | EmptyString => 0
        | String c2 s2 =>
            if isStripped (String c1 (String c2 "")) then 2
            else
              match s2 with
              | EmptyString => 0
              | String c3 _ =>
                  if isStripped (String c1 (String c2 (String c3 "")))
                  then 3 else 0
              end
        end
  end.

Fixpoint trimStart (s : string) : string :=
  match whiteSpaceAhead s, s with
  | 1, String _ s1 => trimStart s1
  | 2, String _ (String _ s2) => trimStart s2
  | 3, String _ (String _ (String _ s3)) => trimStart s3
  | _, _ => s
  end.

(** [s] without its longest suffix that holds stripped code points only.
    A suffix that starts inside a code point starts with a continuation
    unit, which no stripped code point does, so this suffix is the run of
    stripped code points at the end. *)
Fixpoint trimEnd (s : string) : string :=
  match s with
  | EmptyString => EmptyString
  | String c s' =>
      if String.eqb (trimStart s) "" then EmptyString
      else String c (trimEnd s')
  end.

(** [s.trim()] *)
Definition trim (s : string) : string := trimEnd (trimStart s).

(** *** Regular expressions

    The fragment of the regular-expression language that the literals of
    the two files use, matched with Brzozowski derivatives. *)

Inductive regex :=
| Never
| Empty
| Chr (c : ascii)
| OneOf (cs : list ascii)
| NoneOf (cs : list ascii)
| Seq (r1 r2 : regex)
| Alt (r1 r2 : regex)
| Opt (r : regex)
| Plus (r : regex).

Definition mem (c : ascii) (cs : list ascii) : bool :=
  existsb (Ascii.eqb c) cs.

Fixpoint nullable (r : regex) : bool :=
  match r with
  | Never => false
  | Empty => true
  | Chr _ | OneOf _ | NoneOf _ => false
  | Seq r1 r2 => nullable r1 && nullable r2
  | Alt r1 r2 => nullable r1 || nullable r2
  | Opt _ => true
  | Plus r => nullable r
  end.

Fixpoint deriv (c : ascii) (r : regex) : regex :=
  match r with
  | Never | Empty => Never
  | Chr d => if Ascii.eqb c d then Empty else Never
  | OneOf cs => if mem c cs then Empty else Never
  | NoneOf cs => if mem c cs then Never else Empty
  | Seq r1 r2 =>
      if nullable r1
      then Alt (Seq (deriv c r1) r2) (deriv c r2)
      else Seq (deriv c r1) r2
  | Alt r1 r2 => Alt (deriv c r1) (deriv c r2)
  | Opt r => deriv c r
  | Plus r => Seq (deriv c r) (Opt (Plus r))
  end.

(** The whole of [s] matches [r]. *)
Fixpoint matches (r : regex) (s : string) : bool :=
  match s with
  | EmptyString => nullable r
  | String c s' => matches (deriv c r) s'
  end.

(** Some prefix of [s] matches [r]. *)
Fixpoint matchesPrefix (r : regex) (s : string) : bool :=
  nullable r ||
  match s with
  | EmptyString => false
  | String c s' => matchesPrefix (deriv c r) s'
  end.

(** [/r$/.test(s)] without flags: some suffix of [s] matches [r]. *)
Fixpoint testAtEnd (r : regex) (s : string) : bool :=
  matches r s ||
  match s with
  | EmptyString => false
  | String _ s' => testAtEnd r s'
  end.

(** The strings that a regular expression stands for. *)
Inductive Matches : regex -> string -> Prop :=
| MEmpty : Matches Empty ""
| MChr c : Matches (Chr c) (String c "")
| MOneOf c cs : mem c cs = true -> Matches (OneOf cs) (String c "")
| MNoneOf c cs : mem c cs = false -> Matches (NoneOf cs) (String c "")
| MSeq r1 r2 s1 s2 :
    Matches r1 s1 -> Matches r2 s2 -> Matches (Seq r1 r2) (s1 ++ s2)
| MAltL r1 r2 s : Matches r1 s -> Matches (Alt r1 r2) s
| MAltR r1 r2 s : Matches r2 s -> Matches (Alt r1 r2) s
| MOptNone r : Matches (Opt r) ""
| MOptSome r s : Matches r s -> Matches (Opt r) s
| MPlusOne r s : Matches r s -> Matches (Plus r) s
| MPlusMore r s1 s2 :
    Matches r s1 -> Matches (Plus r) s2 -> Matches (Plus r) (s1 ++ s2).

(** A sufficient test that no string matches [r]. *)
Fixpoint void (r : regex) : bool :=
  match r with
  | Never => true
  | Seq r1 r2 => void r1 || void r2
  | Alt r1 r2 => void r1 && void r2
  | Plus r => void r
  | Empty | Chr _ | OneOf _ | NoneOf _ | Opt _ => false
  end.

(** A literal string as a regular expression. *)
Fixpoint lit (s : string) : regex :=
  match s with
  | EmptyString => Empty
  | String c s' => Seq (Chr c) (lit s')
  end.

(** The longest prefix of [s] whose units all satisfy [p]. *)
Fixpoint takeWhile (p : ascii -> bool) (s : string) : string :=
  match s with
  | EmptyString => EmptyString
  | String c s' => if p c then String c (takeWhile p s') else EmptyString
  end.

End JS.

(** ** [plugins.ts]: the module-id classifier *)

Module Plugins.
Import JS.

(** The two fields of ufo's [ParsedURL] that the file reads. *)
Record ParsedURL := { pathname : string; search : string }.

(** A value of ufo's [ParsedQuery]: a string, or an array of strings for
    a key that occurs more than once. *)
Inductive QueryValue :=
| QString (s : string)
| QArray (l : list string).

(** The imported functions.  [pathToFileURL id] stands for
    [pathToFileURL(id).href]; [None] is a thrown exception. *)
Class Imports := {
  pathToFileURL : string -> option string;
  parseURL : string -> ParsedURL;
  parseQuery : string -> gmap string QueryValue;
  extname : string -> string
}.

Inductive BlockType := template | script | style.

#[global] Instance BlockType_eq_dec : EqDecision BlockType.
Proof. solve_decision. Defined.

Definition blockName (b : BlockType) : string :=
  match b with
  | template => "template"
  | script => "script"
  | style => "style"
  end.

(** [opts: { type?: Array<'template' | 'script' | 'style'> }] *)
Record VueOpts := { type : option (list BlockType) }.

(** The default [opts = {}]. *)
Definition noOpts : VueOpts := {| type := None |}.

Inductive Loader := vue | ts | tsx.

(** Truthiness of [query.key]: a missing key and the empty string are
    falsy, an array is truthy. *)
Definition truthyField (query : gmap string QueryValue) (key : string)
  : bool :=
  match query !! key with
  | None => false
  | Some (QString s) => truthy s
  | Some (QArray _) => true
  end.

(** ['key' in query] *)
Definition hasKey (query : gmap string QueryValue) (key : string) : bool :=
  bool_decide (is_Some (query !! key)).

(** [types.includes(t)] for the value [t] of
    ['setup' in query ? 'script' : query.type]: only a string can equal
    one of the three block names. *)
Definition typeIncludes (types : list BlockType) (t : option QueryValue)
  : bool :=
  match t with
  | Some (QString s) => existsb (fun b => String.eqb (blockName b) s) types
  | _ => false
  end.

(** [const JS_RE = /\.(?:[cm]?j|t)sx?$/]; the [$] is in [testAtEnd]. *)
Definition JS_RE : regex :=
  Seq (Chr ".")
    (Seq (Alt (Seq (Opt (OneOf ["c"; "m"]%char)) (Chr "j")) (Chr "t"))
       (Seq (Chr "s") (Opt (Chr "x")))).

(** The extensions that [JS_RE] accepts. *)
Definition scriptExtensions : list string :=
  [".js"; ".mjs"; ".cjs"; ".ts"; ".jsx"; ".mjsx"; ".cjsx"; ".tsx"].

(** What pathe's [extname] returns: nothing, or a dot and then units other
    than a dot. *)
Fixpoint noDot (s : string) : bool :=
  match s with
  | EmptyString => true
  | String c s' => negb (Ascii.eqb c ".") && noDot s'
  end.

Definition plainExtension (ext : string) : bool :=
  match ext with
  | EmptyString => true
  | String c w => Ascii.eqb c "." && noDot w
  end.

Section WithImports.
Context {imports : Imports}.

(** [decodeURIComponent(pathToFileURL(id).href)] *)
Definition fileURL (id : string) : option string :=
  href ← pathToFileURL id; decodeURIComponent href.

Definition isVue (id : string) (opts : VueOpts) : option bool :=
  url ← fileURL id;
  let search := search (parseURL url) in
  if endsWith id ".vue" && negb (truthy search) then Some true
  else if negb (truthy search) then Some false
  else
    let query := parseQuery search in
    if truthyField query "nuxt_component" then Some false
    else if truthyField query "macro"
            && (String.eqb search "?macro=true"
                || match type opts with
                   | None => true
                   | Some types => typeIncludes types (Some (QString "script"))
                   end)
    then Some true
    else
      let type_ :=
        if hasKey query "setup" then Some (QString "script")
        else query !! "type" in
      if negb (hasKey query "vue")
         || match type opts with
            | None => false
            | Some types => negb (typeIncludes types type_)
            end
      then Some false
      else Some true.

Definition isJS (id : string) : option bool :=
  url ← fileURL id;
  Some (testAtEnd JS_RE (pathname (parseURL url))).

Definition getLoader (id : string) : option (option Loader) :=
  url ← fileURL id;
  let ext := extname (pathname (parseURL url)) in
  if String.eqb ext ".vue" then Some (Some vue)
  else if negb (testAtEnd JS_RE ext) then Some None
  else Some (Some (if endsWith ext "x" then tsx else ts)).

End WithImports.

(** [matcher: string | RegExp]; a regular expression is given by its
    [test] method. *)
Inductive Matcher :=
| MString (s : string)
| MRegExp (test : string -> bool).

Definition matchWithStringOrRegex (value : string) (matcher : Matcher)
  : bool :=
  match matcher with
  | MString s => String.eqb value s
  | MRegExp test => test value
  end.

End Plugins.

(** ** The Vite logger shim *)

Module ViteLogger.
Import JS.

(** [vite.LogType] *)
Module LogType.
Inductive t := error | warn | info.

#[global] Instance eq_dec : EqDecision t.
Proof. solve_decision. Defined.
End LogType.

(** [vite.UserConfig['logLevel']] *)
Module LogLevel.
Inductive level := silent | error | warn | info.
End LogLevel.

(** [NuxtOptions['logLevel']] *)
Module NuxtLogLevel.
Inductive level := silent | info | verbose.
End NuxtLogLevel.

Definition logLevelMap (l : NuxtLogLevel.level) : LogLevel.level :=
  match l with
  | NuxtLogLevel.silent => LogLevel.silent
  | NuxtLogLevel.info => LogLevel.info
  | NuxtLogLevel.verbose => LogLevel.info
  end.

Definition logLevelMapReverse (l : LogLevel.level) : Z :=
  match l with
  | LogLevel.silent => 0
  | LogLevel.error => 1
  | LogLevel.warn => 2
  | LogLevel.info => 3
  end%Z.

(** An error object, known by its identity only. *)
Definition ErrorObject := nat.

(** [vite.LogErrorOptions], the fields that are read: [options.clear] by
    truthiness, and [options.error] with [None] for [null] or a missing
    field. *)
Record LogErrorOptions := {
  options_clear : bool;
  options_error : option ErrorObject
}.

(** The default [options = {}]. *)
Definition noOptions : LogErrorOptions :=
  {| options_clear := false; options_error := None |}.

(** The fields of [vite.InlineConfig] that are read, and [ctx]. *)
Record InlineConfig := {
  root : string;
  outDir : string;              (* [config.build.outDir || ''] *)
  logLevel : option LogLevel.level;
  config_clearScreen : bool     (* [config.clearScreen], by truthiness *)
}.

Record Ctx := { hideOutput : bool }.

(** What the file imports and reads from its surroundings:
    [relative] of pathe, [resolveFromPublicAssets] of the public-dirs
    plugin (by the truthiness of its result), [colorize] of consola,
    [hasTTY] and [isCI] of std-env, and the truthiness of
    [process.env.DEBUG]. *)
Class Surroundings := {
  relative : string -> string -> string;
  resolveFromPublicAssets : string -> bool;
  colorize : string -> string -> string;
  hasTTY : bool;
  isCI : bool;
  DEBUG : bool
}.

(** What reaches the outside: a call of [logger[type]] of consola, with
    the text and the level in force during the call, and a call of
    [clearScreen] of Vite's own logger. *)
Inductive Event :=
| Printed (type : LogType.t) (text : string) (level : Z)
| ScreenCleared.

(** State shared by all loggers: the three module-scoped variables, the
    [level] of the consola logger, and the events so far, most recent
    first. *)
Record Shared := {
  duplicateCount : N;
  lastType : option LogType.t;
  lastMsg : option string;
  level : Z;
  events : list Event
}.

(** State of one logger made by [createViteLogger]. *)
Record Logger := {
  loggedErrors : gset ErrorObject;
  warnedMessages : gset string;
  hasWarned : bool
}.

Definition emit (e : Event) (w : Shared) : Shared :=
  {| duplicateCount := duplicateCount w; lastType := lastType w;
     lastMsg := lastMsg w; level := level w; events := e :: events w |}.

Definition setLevel (n : Z) (w : Shared) : Shared :=
  {| duplicateCount := duplicateCount w; lastType := lastType w;
     lastMsg := lastMsg w; level := n; events := events w |}.

Definition setLast (n : N) (t : option LogType.t) (m : option string)
  (w : Shared) : Shared :=
  {| duplicateCount := n; lastType := t; lastMsg := m;
     level := level w; events := events w |}.

Definition setHasWarned (l : Logger) : Logger :=
  {| loggedErrors := loggedErrors l; warnedMessages := warnedMessages l;
     hasWarned := true |}.

Definition addLoggedError (e : ErrorObject) (l : Logger) : Logger :=
  {| loggedErrors := {[e]} ∪ loggedErrors l;
     warnedMessages := warnedMessages l; hasWarned := hasWarned l |}.

Definition addWarnedMessage (m : string) (l : Logger) : Logger :=
  {| loggedErrors := loggedErrors l;
     warnedMessages := {[m]} ∪ warnedMessages l; hasWarned := hasWarned l |}.

(** [const RUNTIME_RESOLVE_REF_RE = /^([^ ]+) referenced in/m]: the part
    after [^]. *)
Definition RUNTIME_RESOLVE_REF_RE : regex :=
  Seq (Plus (NoneOf [" "]%char)) (lit " referenced in").

Definition notSpace (c : ascii) : bool := negb (Ascii.eqb c " ").

(** With the [m] flag, [^] holds at the start of the text and right after
    a line terminator: [before] is the text before the place. *)
Fixpoint endsWithLineTerminator (before : string) : bool :=
  match codePoint before with
  | Some p => isLineTerminator p
  | None => false
  end
  || match before with
     | EmptyString => false
     | String _ before' => endsWithLineTerminator before'
     end.

Definition lineStart (before : string) : bool :=
  String.eqb before "" || endsWithLineTerminator before.

(** [s.match(RUNTIME_RESOLVE_REF_RE)?.[1]], for the text [before ++ s]
    searched from the end of [before] on: the leftmost place where [^]
    holds and the expression matches is taken.  The unit after the group
    is a space, so the greedy group is the whole run of units other than
    space. *)
Fixpoint matchRef (before s : string) : option string :=
  if lineStart before && matchesPrefix RUNTIME_RESOLVE_REF_RE s
  then Some (takeWhile notSpace s)
  else
    match s with
    | EmptyString => None
    | String c s' => matchRef (before ++ String c "") s'
    end.

Definition canClearScreen {env : Surroundings} (config : InlineConfig) : bool :=
  hasTTY && negb isCI && config_clearScreen config.

Definition relativeOutDir {env : Surroundings} (config : InlineConfig) : string :=
  relative (root config) (outDir config).

(** [clear]: [_logger.clearScreen('silent')] *)
Definition clear (w : Shared) : Shared := emit ScreenCleared w.

(** [const clearScreen = canClearScreen ? clear : () => {}] *)
Definition clearScreen {env : Surroundings} (config : InlineConfig) (w : Shared)
  : Shared :=
  if canClearScreen config then clear w else w.

(** The text of Vite's warning about a reference left for the runtime. *)
Definition unresolvedAtBuildTime : string :=
  "didn't resolve at build time, it will remain unchanged to be resolved at runtime".

(** The early returns of [output]. *)
Definition suppressed {env : Surroundings} (config : InlineConfig) (ctx : Ctx)
  (type : LogType.t) (msg : string) : bool :=
  negb DEBUG &&
  ((startsWith msg "Sourcemap" && includes msg "node_modules")
   || (includes msg unresolvedAtBuildTime
       && match matchRef "" (trim msg) with
          | Some id => truthy id && resolveFromPublicAssets id
          | None => false
          end)
   || (bool_decide (type = LogType.info) && hideOutput ctx
       && includes msg (relativeOutDir config))).

Definition output {env : Surroundings} (config : InlineConfig) (ctx : Ctx)
  (type : LogType.t) (msg : string) (options : LogErrorOptions)
  (s : Shared * Logger) : Shared * Logger :=
  if suppressed config ctx type msg then s
  else
    let (w, l) := s in
    let sameAsLast :=
      bool_decide (lastType w = Some type)
      && bool_decide (lastMsg w = Some msg) in
    let w :=
      if sameAsLast
      then clearScreen config
             (setLast (duplicateCount w + 1) (lastType w) (lastMsg w) w)
      else
        let w := setLast 0 (Some type) (Some msg) w in
        if options_clear options then clearScreen config w else w in
    let l :=
      match options_error options with
      | Some e => addLoggedError e l
      | None => l
      end in
    let prevLevel := level w in
    let w :=
      setLevel
        (logLevelMapReverse (default LogLevel.info (logLevel config))) w in
    let w :=
      emit (Printed type
              (msg ++ (if sameAsLast
                       then colorize "dim"
                              (" (x" ++ pretty (duplicateCount w + 1)%N
                               ++ ")")
                       else ""))
              (level w)) w in
    let w := setLevel prevLevel w in
    (w, l).

(** The parts of [output], named for the statements below: the level set
    for the time of the print, the test [sameAsLast], the text handed to
    consola, and the screen clearing that goes before the print. *)
Definition printLevel (config : InlineConfig) : Z :=
  logLevelMapReverse (default LogLevel.info (logLevel config)).

Definition sameAsLast (w : Shared) (type : LogType.t) (msg : string) : bool :=
  bool_decide (lastType w = Some type) && bool_decide (lastMsg w = Some msg).

Definition rendered {env : Surroundings} (w : Shared) (type : LogType.t) (msg : string)
  : string :=
  msg ++ (if sameAsLast w type msg
          then colorize "dim"
                 (" (x" ++ pretty (duplicateCount w + 1 + 1)%N ++ ")")
          else "").

Definition cleared {env : Surroundings} (config : InlineConfig) (w : Shared)
  (type : LogType.t) (msg : string) (options : LogErrorOptions)
  : list Event :=
  if canClearScreen config && (sameAsLast w type msg || options_clear options)
  then [ScreenCleared] else [].

(** The logger that [createViteLogger] returns starts with no logged
    error, no warned message and [hasWarned: false]; the shared state is
    left as it is. *)
Definition createViteLogger : Logger :=
  {| loggedErrors := ∅; warnedMessages := ∅; hasWarned := false |}.

(** The methods of [viteLogger].  An omitted [opts] is [None]. *)
Module viteLogger.

Definition info {env : Surroundings} (config : InlineConfig) (ctx : Ctx)
  (msg : string) (opts : option LogErrorOptions) (s : Shared * Logger)
  : Shared * Logger :=
  output config ctx LogType.info msg (default noOptions opts) s.

Definition warn {env : Surroundings} (config : InlineConfig) (ctx : Ctx)
  (msg : string) (opts : option LogErrorOptions) (s : Shared * Logger)
  : Shared * Logger :=
  output config ctx LogType.warn msg (default noOptions opts)
    (s.1, setHasWarned s.2).

Definition warnOnce {env : Surroundings} (config : InlineConfig) (ctx : Ctx)
  (msg : string) (opts : option LogErrorOptions) (s : Shared * Logger)
  : Shared * Logger :=
  if bool_decide (msg ∈ warnedMessages s.2) then s
  else
    let s :=
      output config ctx LogType.warn msg (default noOptions opts)
        (s.1, setHasWarned s.2) in
    (s.1, addWarnedMessage msg s.2).

Definition error {env : Surroundings} (config : InlineConfig) (ctx : Ctx)
  (msg : string) (opts : option LogErrorOptions) (s : Shared * Logger)
  : Shared * Logger :=
  output config ctx LogType.error msg (default noOptions opts)
    (s.1, setHasWarned s.2).

Definition clearScreen (s : Shared * Logger) : Shared * Logger :=
  (clear s.1, s.2).

Definition hasErrorLogged (e : ErrorObject) (s : Shared * Logger)
  : bool :=
  bool_decide (e ∈ loggedErrors s.2).

End viteLogger.

(** A call of one of the methods of the logger. *)
Inductive Call :=
| Info (msg : string) (opts : option LogErrorOptions)
| Warn (msg : string) (opts : option LogErrorOptions)
| WarnOnce (msg : string) (opts : option LogErrorOptions)
| Error (msg : string) (opts : option LogErrorOptions)
| ClearScreen
| HasErrorLogged (e : ErrorObject).

Definition call {env : Surroundings} (config : InlineConfig) (ctx : Ctx) (c : Call)
  (s : Shared * Logger) : Shared * Logger :=
  match c with
  | Info msg opts => viteLogger.info config ctx msg opts s
  | Warn msg opts => viteLogger.warn config ctx msg opts s
  | WarnOnce msg opts => viteLogger.warnOnce config ctx msg opts s
  | Error msg opts => viteLogger.error config ctx msg opts s
  | ClearScreen => viteLogger.clearScreen s
  | HasErrorLogged _ => s
  end.

(** A sequence of calls, in order. *)
Definition calls {env : Surroundings} (config : InlineConfig) (ctx : Ctx)
  (cs : list Call) (s : Shared * Logger) : Shared * Logger :=
  foldl (fun s c => call config ctx c s) s cs.


(** The error object that a call passes in its options. *)
Definition carried (c : Call) : option ErrorObject :=
  match c with
  | Info _ opts | Warn _ opts | WarnOnce _ opts | Error _ opts =>
      opts ≫= options_error
  | ClearScreen | HasErrorLogged _ => None
  end.

(** The call gets as far as the print in [output]: it is not a repeated
    [warnOnce] and no early return of [output] is taken. *)
Definition reachesPrint {env : Surroundings} (config : InlineConfig) (ctx : Ctx)
  (c : Call) (s : Shared * Logger) : bool :=
  match c with
  | Info msg _ => negb (suppressed config ctx LogType.info msg)
  | Warn msg _ => negb (suppressed config ctx LogType.warn msg)
  | WarnOnce msg _ =>
      negb (bool_decide (msg ∈ warnedMessages s.2))
      && negb (suppressed config ctx LogType.warn msg)
  | Error msg _ => negb (suppressed config ctx LogType.error msg)
  | ClearScreen | HasErrorLogged _ => false
  end.

End ViteLogger.

(** ** Reference instances of the imports

    Plain stand-ins for the imported functions, after the behaviour of the
    packages on POSIX paths; they make the classifier and the logger run on
    concrete inputs. *)

Module Reference.
Import JS.

Definition notIn (cs : list ascii) (c : ascii) : bool := negb (mem c cs).

Fixpoint dropWhile (p : ascii -> bool) (s : string) : string :=
  match s with
  | EmptyString => EmptyString
  | String c s' => if p c then dropWhile p s' else s
  end.

Fixpoint dropUnits (n : nat) (s : string) : string :=
  match n, s with
  | S n', String _ s' => dropUnits n' s'
  | _, _ => s
  end.

Fixpoint splitOn (sep : ascii) (s : string) : list string :=
  match s with
  | EmptyString => [""]
  | String c s' =>
      if Ascii.eqb c sep then "" :: splitOn sep s'
      else
        match splitOn sep s' with
        | [] => [String c ""]
        | p :: ps => String c p :: ps
        end
  end.

Fixpoint replaceUnit (a b : ascii) (s : string) : string :=
  match s with
  | EmptyString => EmptyString
  | String c s' => String (if Ascii.eqb c a then b else c) (replaceUnit a b s')
  end.

(** *** [node:url]: [pathToFileURL(id).href] for a working directory
    [cwd]: the path is made absolute and the units that a file URL
    cannot hold are percent-encoded, the percent sign among them. *)

Definition hexChar (n : N) : ascii :=
  if (n <? 10)%N then ascii_of_N (48 + n) else ascii_of_N (55 + n).

Definition escapeUnit (c : ascii) : string :=
  let n := N_of_ascii c in
  String "%" (String (hexChar (n / 16)) (String (hexChar (n mod 16)) "")).

Definition keptInPath (c : ascii) : bool :=
  between 33 126 (N_of_ascii c)
  && notIn ["#"; "%"; "<"; ">"; "?"; "\"; "^"; "`"; "{"; "|"; "}"]%char c
  && negb (N_of_ascii c =? 34)%N.

Fixpoint escapePath (s : string) : string :=
  match s with
  | EmptyString => EmptyString
  | String c s' =>
      (if keptInPath c then String c "" else escapeUnit c) ++ escapePath s'
  end.

(** The absolute path that [path.resolve] makes of [id], without the
    folding of [.] and [..] segments. *)
Definition resolve (cwd id : string) : string :=
  if startsWith id "/" then id else cwd ++ "/" ++ id.

Definition pathToFileURL (cwd id : string) : option string :=
  Some ("file://" ++ escapePath (resolve cwd id)).

(** The strings that hold well-formed UTF-8, which is what the text of a
    JavaScript string becomes in a URL. *)
Inductive WellFormed : string -> Prop :=
| wf_empty : WellFormed ""
| wf_1 c s :
    (N_of_ascii c < 128)%N -> WellFormed s -> WellFormed (String c s)
| wf_2 c1 c2 s :
    utf8_2 (N_of_ascii c1) (N_of_ascii c2) = true ->
    WellFormed s -> WellFormed (String c1 (String c2 s))
| wf_3 c1 c2 c3 s :
    utf8_3 (N_of_ascii c1) (N_of_ascii c2) (N_of_ascii c3) = true ->
    WellFormed s -> WellFormed (String c1 (String c2 (String c3 s)))
| wf_4 c1 c2 c3 c4 s :
    utf8_4 (N_of_ascii c1) (N_of_ascii c2) (N_of_ascii c3) (N_of_ascii c4)
    = true ->
    WellFormed s ->
    WellFormed (String c1 (String c2 (String c3 (String c4 s)))).

(** The token that [escapePath] leaves for a unit. *)
Definition tokenOf (c : ascii) : uriToken :=
  if keptInPath c then Unit c else Escape (N_of_ascii c).

Fixpoint tokensOf (s : string) : list uriToken :=
  match s with
  | EmptyString => []
  | String c s' => tokenOf c :: tokensOf s'
  end.

(** *** ufo: [parseURL] on a [file:] URL or on a bare path *)

Definition parsePath (s : string) : Plugins.ParsedURL :=
  let rest := dropWhile (notIn ["#"; "?"]%char) s in
  {| Plugins.pathname := takeWhile (notIn ["#"; "?"]%char) s;
     Plugins.search :=
       if startsWith rest "?" then takeWhile (notIn ["#"]%char) rest
       else "" |}.

Definition parseURL (s : string) : Plugins.ParsedURL :=
  if startsWith s "file://"
  then parsePath (dropWhile (notIn ["#"; "/"; "?"]%char) (dropUnits 7 s))
  else parsePath s.

(** *** ufo: [parseQuery] *)

(** [decode]: [decodeURIComponent], or the text itself when that throws. *)
Definition decode (text : string) : string :=
  default text (decodeURIComponent text).

Definition decodeQueryKey (text : string) : string :=
  decode (replaceUnit "+" " " text).

Definition addParameter (key value : string)
  (object : gmap string Plugins.QueryValue)
  : gmap string Plugins.QueryValue :=
  match object !! key with
  | None => <[key := Plugins.QString value]> object
  | Some (Plugins.QArray l) => <[key := Plugins.QArray (l ++ [value])]> object
  | Some (Plugins.QString u) => <[key := Plugins.QArray [u; value]]> object
  end.

(** One parameter: the first run of units other than [=] is the key, an
    [=] after it is skipped, and the rest of the line is the value. *)
Definition parseParameter (parameter : string)
  (object : gmap string Plugins.QueryValue)
  : gmap string Plugins.QueryValue :=
  let isEq := fun c => Ascii.eqb c "=" in
  let from := dropWhile isEq parameter in
  let key := takeWhile (fun c => negb (isEq c)) from in
  let rest := dropWhile (fun c => negb (isEq c)) from in
  let value :=
    takeWhile (fun c => negb (isLineTerminator (N_of_ascii c)))
      (if startsWith rest "=" then dropUnits 1 rest else rest) in
  if String.eqb key "" then object
  else
    let key := decodeQueryKey key in
    if String.eqb key "__proto__" || String.eqb key "constructor"
    then object
    else addParameter key (decodeQueryKey value) object.

Definition parseQuery (parametersString : string)
  : gmap string Plugins.QueryValue :=
  let parametersString :=
    if startsWith parametersString "?" then dropUnits 1 parametersString
    else parametersString in
  foldl (fun object parameter => parseParameter parameter object) ∅
    (splitOn "&" parametersString).

(** *** pathe: [extname], read with [/.(\\.[^./]+)$/] *)

Definition isExtension (s : string) : bool :=
  match s with
  | String "." (String c s') =>
      String.eqb (takeWhile (notIn ["."; "/"]%char) (String c s')) (String c s')
  | _ => false
  end.

Fixpoint extname (p : string) : string :=
  match p with
  | EmptyString => EmptyString
  | String _ p' =>
      if isExtension p' then p'
      else extname p'
  end.

Definition plugins (cwd : string) : Plugins.Imports :=
  {| Plugins.pathToFileURL := pathToFileURL cwd;
     Plugins.parseURL := parseURL;
     Plugins.parseQuery := parseQuery;
     Plugins.extname := extname |}.

(** *** The surroundings of the logger *)

(** pathe: [relative], for a [to] below [from]. *)
Definition relative (from to : string) : string :=
  if startsWith to (from ++ "/") then dropUnits (String.length from + 1) to
  else to.

(** consola: [colorize('dim', text)] wraps the text in the escape
    sequences of the style. *)
Definition colorize (style text : string) : string :=
  if String.eqb style "dim"
  then String (ascii_of_N 27) "[2m" ++ text ++ String (ascii_of_N 27) "[22m"
  else text.

(** A project whose only public asset is [/favicon.ico], run without a
    terminal. *)
Definition logger (debug : bool) : ViteLogger.Surroundings :=
  {| ViteLogger.relative := relative;
     ViteLogger.resolveFromPublicAssets := fun id => String.eqb id "/favicon.ico";
     ViteLogger.colorize := colorize;
     ViteLogger.hasTTY := false;
     ViteLogger.isCI := false;
     ViteLogger.DEBUG := debug |}.

Definition config : ViteLogger.InlineConfig :=
  {| ViteLogger.root := "/app";
     ViteLogger.outDir := "/app/.nuxt/dist/client";
     ViteLogger.logLevel := None;
     ViteLogger.config_clearScreen := false |}.

Definition shared : ViteLogger.Shared :=
  {| ViteLogger.duplicateCount := 0;
     ViteLogger.lastType := None;
     ViteLogger.lastMsg := None;
     ViteLogger.level := 3;
     ViteLogger.events := [] |}.

End Reference.

(** ** Notions used to state further properties of the two files *)

Module Notions.
Import JS.

(** The script extensions with and without a final [x]. *)
Definition xExtensions : list string := [".jsx"; ".mjsx"; ".cjsx"; ".tsx"].

Definition plainExtensions : list string := [".js"; ".mjs"; ".cjs"; ".ts"].

(** The three block names that [opts.type] can hold. *)
Definition isBlockName (s : string) : bool :=
  String.eqb s "template" || String.eqb s "script" || String.eqb s "style".

(** The number of lines handed to consola, and of screen clearings, in a
    list of events. *)
Fixpoint printedCount (es : list ViteLogger.Event) : nat :=
  match es with
  | [] => 0
  | ViteLogger.Printed _ _ _ :: es' => S (printedCount es')
  | ViteLogger.ScreenCleared :: es' => printedCount es'
  end.

Fixpoint clearedCount (es : list ViteLogger.Event) : nat :=
  match es with
  | [] => 0
  | ViteLogger.Printed _ _ _ :: es' => clearedCount es'
  | ViteLogger.ScreenCleared :: es' => S (clearedCount es')
  end.

(** The methods that set [hasWarned]. *)
Definition raisesWarning (c : ViteLogger.Call) : bool :=
  match c with
  | ViteLogger.Warn _ _ | ViteLogger.WarnOnce _ _ | ViteLogger.Error _ _ => true
  | ViteLogger.Info _ _ | ViteLogger.ClearScreen
  | ViteLogger.HasErrorLogged _ => false
  end.

(** The UTF-8 forms of the four line terminators: LF, CR, U+2028 and
    U+2029. *)
Definition lineTerminators : list string :=
  [String (ascii_of_N 10) "";
   String (ascii_of_N 13) "";
   String (ascii_of_N 226) (String (ascii_of_N 128) (String (ascii_of_N 168) ""));
   String (ascii_of_N 226) (String (ascii_of_N 128) (String (ascii_of_N 169) ""))].

(** Texts made only of code points that [trim] strips. *)
Inductive WhiteSpaces : string -> Prop :=
| WhiteSpaces_nil : WhiteSpaces ""
| WhiteSpaces_cons u s :
    isStripped u = true -> WhiteSpaces s -> WhiteSpaces (u ++ s).

(** Texts without the unit of the space. *)
Fixpoint noSpace (s : string) : bool :=
  match s with
  | EmptyString => true
  | String c s' => ViteLogger.notSpace c && noSpace s'
  end.

End Notions.

(** * Properties of the built-ins *)

Module JSFacts.
Import JS.

(** *** Strings *)

Lemma append_empty_l (s : string) : "" ++ s = s.
Proof. reflexivity. Qed.

Lemma append_cons c (s1 s2 : string) : String c s1 ++ s2 = String c (s1 ++ s2).
Proof. reflexivity. Qed.

Lemma append_empty_r (s : string) : s ++ "" = s.
Proof.
  induction s as [|c s IH]; [reflexivity|].
  rewrite append_cons. now f_equal.
Qed.

Lemma append_assoc (s1 s2 s3 : string) : (s1 ++ s2) ++ s3 = s1 ++ (s2 ++ s3).
Proof.
  induction s1 as [|c s1 IH]; [reflexivity|].
  rewrite !append_cons. now f_equal.
Qed.

Lemma append_eq_empty (s1 s2 : string) : s1 ++ s2 = "" -> s1 = "" /\ s2 = "".
Proof.
  destruct s1; [rewrite append_empty_l; now intros -> |].
  rewrite append_cons. discriminate.
Qed.

Lemma append_eq_cons (s1 s2 : string) c s :
  s1 ++ s2 = String c s ->
  (s1 = "" /\ s2 = String c s) \/ (exists s1', s1 = String c s1' /\ s = s1' ++ s2).
Proof.
  destruct s1 as [|d s1].
  - rewrite append_empty_l. intros ->. now left.
  - rewrite append_cons. intros [= -> <-]. right. now exists s1.
Qed.

Lemma endsWith_spec s p : endsWith s p = true <-> exists pre, s = pre ++ p.
Proof.
  induction s as [|c s IH]; cbn [endsWith].
  - rewrite orb_false_r, String.eqb_eq. split.
    + intros <-. now exists "".
    + intros [pre Hpre]. symmetry in Hpre.
      now apply append_eq_empty in Hpre as [_ ->].
  - rewrite orb_true_iff, String.eqb_eq, IH. split.
    + intros [<-|[pre ->]]; [now exists "" | now exists (String c pre)].
    + intros [[|d pre] Hpre].
      * now left.
      * rewrite append_cons in Hpre. injection Hpre as _ ->. right.
        now exists pre.
Qed.

(** *** The matcher against the meaning of regular expressions *)

Lemma nullable_spec r : nullable r = true <-> Matches r "".
Proof.
  induction r; cbn.
  - split; [discriminate | inversion 1].
  - split; [constructor | reflexivity].
  - split; [discriminate | inversion 1].
  - split; [discriminate | inversion 1].
  - split; [discriminate | inversion 1].
  - rewrite andb_true_iff, IHr1, IHr2. split.
    + intros [H1 H2]. apply (MSeq _ _ "" ""); assumption.
    + inversion 1 as [| | | |? ? s1 s2 H1 H2 [Hr1 Hr2] Hs| | | | | |]; subst.
      now apply append_eq_empty in Hs as [-> ->].
  - rewrite orb_true_iff, IHr1, IHr2. split.
    + intros [?|?]; [now apply MAltL | now apply MAltR].
    + inversion 1; subst; auto.
  - split; [constructor | reflexivity].
  - rewrite IHr. split; [apply MPlusOne|].
    intros Hm. remember (Plus r) as p eqn:Hp. remember "" as e eqn:He.
    induction Hm; try discriminate; injection Hp as ->; subst.
    + assumption.
    + apply append_eq_empty in He as [-> ->]. assumption.
Qed.

Lemma Matches_Seq r1 r2 s :
  Matches (Seq r1 r2) s <->
  exists s1 s2, s = s1 ++ s2 /\ Matches r1 s1 /\ Matches r2 s2.
Proof.
  split.
  - inversion 1; subst. eauto.
  - intros (s1 & s2 & -> & H1 & H2). now constructor.
Qed.

Lemma Matches_Plus_cons r c s :
  Matches (Plus r) (String c s) ->
  exists s1 s2, s = s1 ++ s2 /\ Matches r (String c s1)
                /\ Matches (Opt (Plus r)) s2.
Proof.
  intros Hm. remember (Plus r) as p eqn:Hp.
  remember (String c s) as cs eqn:Hcs. revert s Hcs.
  induction Hm as [| | | | | | | | |r' s' H'|r' s1 s2 H1 _ H2 IH2];
    try discriminate; injection Hp as ->; intros s Hcs.
  - subst. exists s, "". rewrite append_empty_r.
    split; [reflexivity|]. split; [assumption | constructor].
  - apply append_eq_cons in Hcs as [[-> ->]|(s1' & -> & ->)].
    + now apply IH2.
    + exists s1', s2. split; [reflexivity|]. split; [assumption|].
      now apply MOptSome.
Qed.

Lemma deriv_spec c r s : Matches (deriv c r) s <-> Matches r (String c s).
Proof.
  revert s. induction r; intros s; cbn.
  - split; inversion 1.
  - split; inversion 1.
  - destruct (Ascii.eqb_spec c c0) as [->|Hne]; split; inversion 1; subst;
      try constructor; congruence.
  - destruct (mem c cs) eqn:Hc; split; inversion 1; subst;
      try (constructor; assumption); congruence.
  - destruct (mem c cs) eqn:Hc; split; inversion 1; subst;
      try (constructor; assumption); congruence.
  - assert (Hseq : Matches (Seq (deriv c r1) r2) s ->
                   Matches (Seq r1 r2) (String c s)).
    { intros (s1 & s2 & -> & H1 & H2)%Matches_Seq.
      rewrite <- append_cons. constructor; [now apply IHr1 | assumption]. }
    destruct (nullable r1) eqn:Hn; split.
    + inversion 1; subst; [now apply Hseq|].
      apply (MSeq r1 r2 "" (String c s)); [now apply nullable_spec|].
      now apply IHr2.
    + intros (s1 & s2 & Hs & H1 & H2)%Matches_Seq. symmetry in Hs.
      apply append_eq_cons in Hs as [[-> ->]|(s1' & -> & ->)].
      * apply MAltR. now apply IHr2.
      * apply MAltL. constructor; [now apply IHr1 | assumption].
    + exact Hseq.
    + intros (s1 & s2 & Hs & H1 & H2)%Matches_Seq. symmetry in Hs.
      apply append_eq_cons in Hs as [[-> ->]|(s1' & -> & ->)].
      * apply nullable_spec in H1. congruence.
      * constructor; [now apply IHr1 | assumption].
  - split.
    + inversion 1; subst; [apply MAltL; now apply IHr1 | apply MAltR; now apply IHr2].
    + inversion 1; subst; [apply MAltL; now apply IHr1 | apply MAltR; now apply IHr2].
  - rewrite IHr. split; [apply MOptSome | now inversion 1].
  - split.
    + intros (s1 & s2 & -> & H1 & H2)%Matches_Seq. apply IHr in H1.
      inversion H2; subst.
      * rewrite append_empty_r. now apply MPlusOne.
      * rewrite <- append_cons. now apply MPlusMore.
    + intros (s1 & s2 & -> & H1 & H2)%Matches_Plus_cons.
      constructor; [now apply IHr | assumption].
Qed.

Lemma matches_spec r s : matches r s = true <-> Matches r s.
Proof.
  revert r. induction s as [|c s IH]; intros r; cbn.
  - apply nullable_spec.
  - rewrite IH. apply deriv_spec.
Qed.

Lemma testAtEnd_spec r s :
  testAtEnd r s = true <-> exists pre u, s = pre ++ u /\ Matches r u.
Proof.
  induction s as [|c s IH]; cbn [testAtEnd].
  - rewrite orb_false_r, matches_spec. split.
    + intros Hm. now exists "", "".
    + intros (pre & u & Hs & Hm). symmetry in Hs.
      now apply append_eq_empty in Hs as [_ ->].
  - rewrite orb_true_iff, matches_spec, IH. split.
    + intros [Hm|(pre & u & -> & Hm)].
      * now exists "", (String c s).
      * now exists (String c pre), u.
    + intros ([|d pre] & u & Hs & Hm).
      * left. rewrite append_empty_l in Hs. now subst.
      * rewrite append_cons in Hs. injection Hs as _ ->. right.
        now exists pre, u.
Qed.

(** *** Regular expressions without a match *)

Lemma void_not_nullable r : void r = true -> nullable r = false.
Proof.
  induction r; cbn; try discriminate; try done.
  - intros [H1|H2]%orb_true_iff.
    + now rewrite IHr1.
    + rewrite IHr2 by done. apply andb_false_r.
  - intros [H1 H2]%andb_true_iff. now rewrite IHr1, IHr2.
Qed.

Lemma void_deriv c r : void r = true -> void (deriv c r) = true.
Proof.
  induction r; cbn; try discriminate; try done.
  - intros [H1|H2]%orb_true_iff.
    + rewrite (void_not_nullable _ H1). cbn. now rewrite IHr1.
    + destruct (nullable r1); cbn; rewrite ?H2, ?IHr2, ?orb_true_r; done.
  - intros [H1 H2]%andb_true_iff. now rewrite IHr1, IHr2.
  - intros Hr. now rewrite IHr.
Qed.

Lemma void_matchesPrefix r s : void r = true -> matchesPrefix r s = false.
Proof.
  revert r. induction s as [|c s IH]; intros r Hr; cbn;
    rewrite (void_not_nullable _ Hr); [reflexivity|].
  apply IH. now apply void_deriv.
Qed.

End JSFacts.

(** * Properties of the classifier *)

Module PluginsFacts.
Import JS JSFacts Plugins.

(** *** [JS_RE] *)

Lemma Matches_Chr c s : Matches (Chr c) s -> s = String c "".
Proof. now inversion 1. Qed.

Lemma Matches_Opt r s : Matches (Opt r) s -> s = "" \/ Matches r s.
Proof. inversion 1; auto. Qed.

Lemma Matches_Alt r1 r2 s : Matches (Alt r1 r2) s -> Matches r1 s \/ Matches r2 s.
Proof. inversion 1; auto. Qed.

Lemma Matches_OneOf cs s :
  Matches (OneOf cs) s -> exists c, s = String c "" /\ mem c cs = true.
Proof. inversion 1; eauto. Qed.

Lemma JS_RE_Matches u : Matches JS_RE u -> In u scriptExtensions.
Proof.
  unfold JS_RE.
  intros (s1 & s2 & -> & H1 & H2)%Matches_Seq.
  apply Matches_Chr in H1 as ->.
  apply Matches_Seq in H2 as (s3 & s4 & -> & H3 & H4).
  apply Matches_Seq in H4 as (s5 & s6 & -> & H5 & H6).
  apply Matches_Chr in H5 as ->.
  assert (Hx : s6 = "" \/ s6 = "x").
  { apply Matches_Opt in H6 as [->|H6]; [auto|].
    apply Matches_Chr in H6 as ->. auto. }
  assert (Hj : s3 = "j" \/ s3 = "cj" \/ s3 = "mj" \/ s3 = "t").
  { apply Matches_Alt in H3 as [H3|H3];
      [|apply Matches_Chr in H3 as ->; auto].
    apply Matches_Seq in H3 as (s7 & s8 & -> & H7 & H8).
    apply Matches_Chr in H8 as ->.
    apply Matches_Opt in H7 as [->|H7]; [auto|].
    apply Matches_OneOf in H7 as (c & -> & Hc).
    cbn in Hc. rewrite orb_false_r in Hc.
    apply orb_true_iff in Hc as [Hc|Hc]; apply Ascii.eqb_eq in Hc as ->; auto. }
  destruct Hx as [-> | ->]; destruct Hj as [-> | [-> | [-> | ->]]];
    cbv; auto 10.
Qed.

Lemma JS_RE_test s :
  testAtEnd JS_RE s = true <->
  exists e, e ∈ scriptExtensions /\ endsWith s e = true.
Proof.
  rewrite testAtEnd_spec. split.
  - intros (pre & u & -> & Hu). exists u. split.
    + apply list_elem_of_In. now apply JS_RE_Matches.
    + apply endsWith_spec. now exists pre.
  - intros (e & He & (pre & ->)%endsWith_spec). exists pre, e.
    split; [reflexivity|]. apply matches_spec.
    unfold scriptExtensions in He. rewrite !elem_of_cons in He.
    destruct He as [->|[->|[->|[->|[->|[->|[->|[->|He]]]]]]]];
      [reflexivity..|]. inversion He.
Qed.

Lemma plainExtension_script ext :
  plainExtension ext = true ->
  (exists e, e ∈ scriptExtensions /\ endsWith ext e = true) ->
  ext ∈ scriptExtensions.
Proof.
  intros Hplain (e & He & (pre & ->)%endsWith_spec).
  assert (Hdot : exists e', e = String "." e').
  { unfold scriptExtensions in He. rewrite !elem_of_cons in He.
    destruct He as [->|[->|[->|[->|[->|[->|[->|[->|He]]]]]]]]; eauto.
    inversion He. }
  destruct Hdot as [e' ->].
  destruct pre as [|c pre]; [exact He|].
  exfalso. rewrite append_cons in Hplain. cbn in Hplain.
  apply andb_true_iff in Hplain as [_ Hno]. clear He.
  induction pre as [|d pre IH].
  - rewrite append_empty_l in Hno. cbn in Hno. discriminate.
  - rewrite append_cons in Hno. cbn in Hno.
    apply andb_true_iff in Hno as [_ Hno]. now apply IH.
Qed.

(** *** The options *)

Lemma typeIncludes_block types b :
  typeIncludes types (Some (QString (blockName b))) = bool_decide (b ∈ types).
Proof.
  induction types as [|a types IH]; cbn.
  - symmetry. apply bool_decide_eq_false_2. inversion 1.
  - cbn in IH. rewrite IH.
    destruct (decide (a = b)) as [->|Hne].
    + rewrite String.eqb_refl. symmetry. apply bool_decide_eq_true_2. left.
    + assert (Hn : String.eqb (blockName a) (blockName b) = false)
        by (destruct a, b; try reflexivity; congruence).
      rewrite Hn. cbn. apply bool_decide_ext.
      rewrite elem_of_cons. intuition congruence.
Qed.

Section Facts.
Context {imports : Imports}.

(** The classifiers throw only where the conversion to a file URL or its
    decoding throws. *)
Lemma classifiers_defined (id : string) (opts : VueOpts) (url : string) :
  fileURL id = Some url ->
  is_Some (isVue id opts) /\ is_Some (isJS id) /\ is_Some (getLoader id).
Proof.
  intros Hurl. unfold isVue, isJS, getLoader. rewrite Hurl. cbn.
  repeat split;
    repeat match goal with
           | |- context [if ?c then Some _ else _] => destruct c
           end; eauto.
Qed.


(** C5, as amended.  [getLoader] returns [tsx] for the extension [.tsx],
    [ts] for [.js], [.mjs], [.cjs] and [.ts], and nothing for an
    extension, as pathe returns it, that is neither [.vue] nor one of the
    script extensions. *)
Theorem getLoader_follows_extension (id : string) (url : string) :
  fileURL id = Some url ->
  let ext := extname (pathname (parseURL url)) in
  (ext = ".tsx" -> getLoader id = Some (Some tsx))
  /\ (ext ∈ [".js"; ".mjs"; ".cjs"; ".ts"] -> getLoader id = Some (Some ts))
  /\ (ext <> ".vue" -> ext ∉ scriptExtensions -> plainExtension ext = true ->
      getLoader id = Some None).
Proof.
  intros Hurl ext. unfold getLoader. rewrite Hurl. cbn. fold ext.
  split; [|split].
  - intros ->. reflexivity.
  - rewrite !elem_of_cons.
    intros [->|[->|[->|[->|He]]]]; [reflexivity..|]. inversion He.
  - intros Hv Hout Hplain.
    rewrite (proj2 (String.eqb_neq ext ".vue") Hv).
    destruct (testAtEnd JS_RE ext) eqn:Ht; [|reflexivity].
    exfalso. apply Hout, plainExtension_script; [exact Hplain|].
    now apply JS_RE_test.
Qed.

(** C7.  For an id whose query string is [?vue&type=style], which ufo
    parses into the keys [vue] and [type] with the value [style]:
    [isVue] is true when [opts.type] is absent or includes [style], and
    false when [opts.type] is given without [style]. *)
Theorem vue_style_block_follows_type_filter
  (id : string) (opts : VueOpts) (url : string) :
  fileURL id = Some url ->
  search (parseURL url) = "?vue&type=style" ->
  parseQuery "?vue&type=style"
    = {[ "vue" := QString ""; "type" := QString "style" ]} ->
  isVue id opts
    = Some (match type opts with
            | None => true
            | Some types => bool_decide (style ∈ types)
            end).
Proof.
  intros Hurl Hsearch Hquery. unfold isVue.
  rewrite Hurl. cbn. rewrite Hsearch, Hquery.
  set (q := {[ "vue" := QString ""; "type" := QString "style" ]}).
  assert (H1 : truthy "?vue&type=style" = true) by reflexivity.
  assert (H2 : truthyField q "nuxt_component" = false)
    by (vm_compute; reflexivity).
  assert (H3 : truthyField q "macro" = false) by (vm_compute; reflexivity).
  assert (H4 : hasKey q "setup" = false) by (vm_compute; reflexivity).
  assert (H5 : hasKey q "vue" = true) by (vm_compute; reflexivity).
  assert (H6 : q !! "type" = Some (QString "style"))
    by (vm_compute; reflexivity).
  rewrite H1, H2, H3, H4, H5, H6, andb_false_r. cbn.
  destruct (type opts) as [types|]; [|reflexivity].
  pose proof (typeIncludes_block types style) as Ht.
  cbn [blockName typeIncludes] in Ht. rewrite Ht.
  now destruct (bool_decide (style ∈ types)).
Qed.

(** C8.  An id that ends with [.vue] and whose URL has no query string is
    a Vue file, whatever [opts.type] asks for. *)
Theorem bare_vue_file_is_vue (id : string) (opts : VueOpts) (url : string) :
  fileURL id = Some url ->
  endsWith id ".vue" = true ->
  search (parseURL url) = "" ->
  isVue id opts = Some true.
Proof.
  intros Hurl Hend Hsearch. unfold isVue.
  rewrite Hurl. cbn. now rewrite Hend, Hsearch.
Qed.

End Facts.

(** *** The claims at concrete inputs, with the reference imports and the
    working directory [/app] *)

Lemma bare_vue_file_is_vue_witness :
  isVue (imports := Reference.plugins "/app") "pages/index.vue"
    {| type := Some [style] |} = Some true.
Proof.
  apply (bare_vue_file_is_vue (imports := Reference.plugins "/app")
           "pages/index.vue" _ "file:///app/pages/index.vue");
    vm_compute; reflexivity.
Defined.

Lemma vue_style_block_follows_type_filter_witness :
  isVue (imports := Reference.plugins "/app") "/app/pages/index.vue?vue&type=style"
    {| type := Some [template; style] |} = Some true
  /\ isVue (imports := Reference.plugins "/app") "/app/pages/index.vue?vue&type=style"
       {| type := Some [script] |} = Some false.
Proof.
  split.
  - apply (vue_style_block_follows_type_filter
             (imports := Reference.plugins "/app")
             "/app/pages/index.vue?vue&type=style"
             {| type := Some [template; style] |}
             "file:///app/pages/index.vue?vue&type=style");
      vm_compute; reflexivity.
  - apply (vue_style_block_follows_type_filter
             (imports := Reference.plugins "/app")
             "/app/pages/index.vue?vue&type=style"
             {| type := Some [script] |}
             "file:///app/pages/index.vue?vue&type=style");
      vm_compute; reflexivity.
Defined.



(** C5 as stated fails: [.vue] is not among the script extensions, yet
    [getLoader] does not return null for it. *)
Lemma getLoader_of_vue_extension_is_not_null :
  let imports := Reference.plugins "/app" in
  extname (pathname (parseURL "file:///app/pages/index.vue")) = ".vue"
  /\ (".vue" ∉ scriptExtensions)
  /\ getLoader "/app/pages/index.vue" = Some (Some vue).
Proof.
  cbv zeta. split; [reflexivity|]. split; [|reflexivity].
  unfold scriptExtensions. rewrite !elem_of_cons.
  intros [H|[H|[H|[H|[H|[H|[H|[H|H]]]]]]]]; try discriminate H. inversion H.
Qed.

Lemma getLoader_follows_extension_witness :
  let imports := Reference.plugins "/app" in
  getLoader "components/Chart.tsx" = Some (Some tsx)
  /\ getLoader "plugins/init.mjs?v=1" = Some (Some ts)
  /\ getLoader "assets/main.css" = Some None.
Proof.
  intros imports. split; [|split].
  - apply (getLoader_follows_extension (imports := imports) "components/Chart.tsx"
             "file:///app/components/Chart.tsx" eq_refl). reflexivity.
  - apply (getLoader_follows_extension (imports := imports) "plugins/init.mjs?v=1"
             "file:///app/plugins/init.mjs?v=1" eq_refl).
    rewrite !elem_of_cons. right. left. reflexivity.
  - apply (getLoader_follows_extension (imports := imports) "assets/main.css"
             "file:///app/assets/main.css" eq_refl).
    + discriminate.
    + unfold scriptExtensions. rewrite !elem_of_cons.
      intros [H|[H|[H|[H|[H|[H|[H|[H|H]]]]]]]]; try discriminate H.
      inversion H.
    + reflexivity.
Defined.

End PluginsFacts.

(** * The reference [pathToFileURL] always yields a decodable URL *)

Module ReferenceFacts.
Import JS JSFacts Reference.

Lemma uriTokens_escapeUnit c t :
  uriTokens (escapeUnit c ++ t)
  = ts ← uriTokens t; Some (Escape (N_of_ascii c) :: ts).
Proof.
  destruct c as [[] [] [] [] [] [] [] []]; reflexivity.
Qed.

Lemma keptInPath_not_percent c : keptInPath c = true -> Ascii.eqb c "%" = false.
Proof.
  destruct (Ascii.eqb_spec c "%") as [->|]; [discriminate | reflexivity].
Qed.

Lemma uriTokens_escapePath s : uriTokens (escapePath s) = Some (tokensOf s).
Proof.
  induction s as [|c s IH]; [reflexivity|].
  cbn [escapePath tokensOf]. unfold tokenOf.
  destruct (keptInPath c) eqn:Hk.
  - rewrite append_cons, append_empty_l. cbn [uriTokens].
    rewrite (keptInPath_not_percent c Hk), IH. reflexivity.
  - rewrite uriTokens_escapeUnit, IH. reflexivity.
Qed.

Lemma between_true lo hi b :
  between lo hi b = true <-> (lo <= b /\ b <= hi)%N.
Proof. unfold between. now rewrite andb_true_iff, !N.leb_le. Qed.

Lemma between_false lo hi b :
  (b < lo \/ hi < b)%N -> between lo hi b = false.
Proof.
  intros Hb. destruct (between lo hi b) eqn:Hbt; [|reflexivity].
  apply between_true in Hbt. lia.
Qed.

Lemma utf8_2_bounds b1 b2 :
  utf8_2 b1 b2 = true -> (194 <= b1 <= 223 /\ 128 <= b2 <= 191)%N.
Proof.
  unfold utf8_2. rewrite andb_true_iff, !between_true. lia.
Qed.

Lemma utf8_3_bounds b1 b2 b3 :
  utf8_3 b1 b2 b3 = true ->
  (224 <= b1 <= 239 /\ 128 <= b2 <= 191 /\ 128 <= b3 <= 191)%N.
Proof.
  unfold utf8_3.
  rewrite !orb_true_iff, !andb_true_iff, !between_true, !N.eqb_eq. lia.
Qed.

Lemma utf8_4_bounds b1 b2 b3 b4 :
  utf8_4 b1 b2 b3 b4 = true ->
  (240 <= b1 <= 244 /\ 128 <= b2 <= 191 /\ 128 <= b3 <= 191
   /\ 128 <= b4 <= 191)%N.
Proof.
  unfold utf8_4.
  rewrite !orb_true_iff, !andb_true_iff, !between_true, !N.eqb_eq. lia.
Qed.

(** A unit from 0x80 on is always escaped. *)
Lemma tokenOf_high c : (128 <= N_of_ascii c)%N -> tokenOf c = Escape (N_of_ascii c).
Proof.
  intros Hc. unfold tokenOf, keptInPath.
  rewrite between_false by lia. reflexivity.
Qed.

Lemma codeUnit_of_unit c : codeUnit (N_of_ascii c) = c.
Proof. apply ascii_N_embedding. Qed.

Lemma decodeTokens_tokensOf s :
  WellFormed s -> decodeTokens (tokensOf s) = Some s.
Proof.
  induction 1 as [|c s Hc _ IH|c1 c2 s Hc _ IH|c1 c2 c3 s Hc _ IH
                  |c1 c2 c3 c4 s Hc _ IH].
  - reflexivity.
  - cbn [tokensOf]. unfold tokenOf. destruct (keptInPath c); cbn [decodeTokens].
    + now rewrite IH.
    + rewrite (proj2 (N.ltb_lt _ _) Hc), IH. cbn.
      now rewrite codeUnit_of_unit.
  - pose proof (utf8_2_bounds _ _ Hc) as Hb.
    cbn [tokensOf]. rewrite !tokenOf_high by lia. cbn [decodeTokens].
    rewrite (proj2 (N.ltb_ge _ _)) by lia.
    rewrite (proj2 (between_true 192 223 _)) by lia.
    rewrite Hc, IH. cbn. now rewrite !codeUnit_of_unit.
  - pose proof (utf8_3_bounds _ _ _ Hc) as Hb.
    cbn [tokensOf]. rewrite !tokenOf_high by lia. cbn [decodeTokens].
    rewrite (proj2 (N.ltb_ge _ _)) by lia.
    rewrite (between_false 192 223) by lia.
    rewrite (proj2 (between_true 224 239 _)) by lia.
    rewrite Hc, IH. cbn. now rewrite !codeUnit_of_unit.
  - pose proof (utf8_4_bounds _ _ _ _ Hc) as Hb.
    cbn [tokensOf]. rewrite !tokenOf_high by lia. cbn [decodeTokens].
    rewrite (proj2 (N.ltb_ge _ _)) by lia.
    rewrite (between_false 192 223) by lia.
    rewrite (between_false 224 239) by lia.
    rewrite (proj2 (between_true 240 247 _)) by lia.
    rewrite Hc, IH. cbn. now rewrite !codeUnit_of_unit.
Qed.

(** Escaping a path and decoding it gives the path back. *)
Lemma decode_escapePath s :
  WellFormed s -> decodeURIComponent (escapePath s) = Some s.
Proof.
  intros Hs. unfold decodeURIComponent.
  rewrite uriTokens_escapePath. cbn. now apply decodeTokens_tokensOf.
Qed.

Lemma WellFormed_append s1 s2 :
  WellFormed s1 -> WellFormed s2 -> WellFormed (s1 ++ s2).
Proof.
  intros H1 H2. induction H1; rewrite ?append_empty_l, ?append_cons;
    [assumption | now constructor..].
Qed.

Lemma WellFormed_resolve cwd id :
  WellFormed cwd -> WellFormed id -> WellFormed (resolve cwd id).
Proof.
  intros Hc Hi. unfold resolve. destruct (startsWith id "/"); [assumption|].
  apply WellFormed_append; [assumption|].
  rewrite append_cons, append_empty_l. apply wf_1; [|assumption].
  vm_compute. reflexivity.
Qed.

(** With the reference imports, the conversion of an id to a decoded file
    URL returns for every id, whatever escapes the id itself holds. *)
Lemma fileURL_returns cwd id :
  WellFormed cwd -> WellFormed id ->
  Plugins.fileURL (imports := plugins cwd) id = Some ("file://" ++ resolve cwd id).
Proof.
  intros Hc Hi. unfold Plugins.fileURL. cbn. unfold pathToFileURL. cbn.
  pose proof (decode_escapePath _ (WellFormed_resolve cwd id Hc Hi)) as Hd.
  unfold decodeURIComponent in *.
  destruct (uriTokens (escapePath (resolve cwd id))) as [ts|] eqn:Hts;
    [|discriminate].
  cbn in Hd. rewrite !append_cons, append_empty_l. cbn [uriTokens].
  rewrite Hts. cbn. rewrite Hd. reflexivity.
Qed.

(** So, with the reference imports, no classifier throws on any id. *)
Lemma classifiers_never_throw cwd id opts :
  WellFormed cwd -> WellFormed id ->
  is_Some (Plugins.isVue (imports := plugins cwd) id opts)
  /\ is_Some (Plugins.isJS (imports := plugins cwd) id)
  /\ is_Some (Plugins.getLoader (imports := plugins cwd) id).
Proof.
  intros Hc Hi.
  apply (PluginsFacts.classifiers_defined (imports := plugins cwd) id opts
           _ (fileURL_returns cwd id Hc Hi)).
Qed.

End ReferenceFacts.
(** * Properties of the logger shim *)

Module LoggerFacts.
Import JS JSFacts ViteLogger.

(** A match of [RUNTIME_RESOLVE_REF_RE] starts with a unit other than
    space, so the captured id is never empty. *)
Lemma matchRef_truthy before s id :
  matchRef before s = Some id -> truthy id = true.
Proof.
  revert before. induction s as [|c s IH]; intros before.
  - cbn. rewrite andb_false_r. discriminate.
  - cbn [matchRef].
    destruct (lineStart before && matchesPrefix RUNTIME_RESOLVE_REF_RE (String c s))
      eqn:Hm; [|apply IH].
    apply andb_true_iff in Hm as [_ Hm]. intros [= <-].
    cbn in Hm. unfold notSpace. cbn.
    destruct (Ascii.eqb c " "); [|reflexivity].
    cbn in Hm. now rewrite void_matchesPrefix in Hm.
Qed.

Section Facts.
Context {env : Surroundings} (config : InlineConfig) (ctx : Ctx).

(** *** One call of [output] *)

Lemma output_suppressed type msg options s :
  suppressed config ctx type msg = true ->
  output config ctx type msg options s = s.
Proof. intros Hs. unfold output. now rewrite Hs. Qed.

Lemma output_printed type msg options w l :
  suppressed config ctx type msg = false ->
  output config ctx type msg options (w, l) =
    ({| duplicateCount :=
          if sameAsLast w type msg then (duplicateCount w + 1)%N else 0%N;
        lastType := Some type;
        lastMsg := Some msg;
        level := level w;
        events := Printed type (rendered w type msg) (printLevel config)
                    :: (cleared config w type msg options ++ events w)%list |},
     match options_error options with
     | Some e => addLoggedError e l
     | None => l
     end).
Proof.
  intros Hs. unfold output, rendered, cleared, sameAsLast. rewrite Hs.
  destruct (bool_decide (lastType w = Some type)) eqn:Ht;
    destruct (bool_decide (lastMsg w = Some msg)) eqn:Hm; cbn [andb orb];
    unfold clearScreen, clear, emit, setLevel, setLast;
    destruct (canClearScreen config); cbn;
    try (destruct (options_clear options); cbn);
    try (apply bool_decide_eq_true in Ht; apply bool_decide_eq_true in Hm;
         rewrite <- Ht, <- Hm);
    reflexivity.
Qed.

(** Case analysis on the early returns of [output]. *)
Ltac output_cases type msg s :=
  let Hs := fresh "Hs" in
  destruct (suppressed config ctx type msg) eqn:Hs;
  [ rewrite (output_suppressed _ _ _ _ Hs)
  | destruct s as [? ?]; rewrite (output_printed _ _ _ _ _ Hs) ].

Lemma output_level type msg options s :
  level (output config ctx type msg options s).1 = level s.1.
Proof. output_cases type msg s; reflexivity. Qed.

Lemma output_hasWarned type msg options s :
  hasWarned (output config ctx type msg options s).2 = hasWarned s.2.
Proof.
  output_cases type msg s; [reflexivity|].
  cbn. now destruct (options_error options).
Qed.

Lemma output_warnedMessages type msg options s :
  warnedMessages (output config ctx type msg options s).2 = warnedMessages s.2.
Proof.
  output_cases type msg s; [reflexivity|].
  cbn. now destruct (options_error options).
Qed.

Lemma output_loggedErrors type msg options s e :
  e ∈ loggedErrors (output config ctx type msg options s).2 <->
  e ∈ loggedErrors s.2
  \/ (suppressed config ctx type msg = false /\ options_error options = Some e).
Proof.
  output_cases type msg s.
  - split; [auto | intros [?|[? _]]; [done | discriminate]].
  - cbn. destruct (options_error options) as [e'|]; cbn.
    + rewrite elem_of_union, elem_of_singleton. split.
      * intros [->|?]; auto.
      * intros [?|[_ [= ->]]]; auto.
    + split; [auto | intros [?|[_ ?]]; [done | discriminate]].
Qed.

Lemma output_events type msg options s :
  exists new,
    events (output config ctx type msg options s).1 = (new ++ events s.1)%list
    /\ Forall (fun e => forall t x lvl,
                 e = Printed t x lvl -> lvl = printLevel config) new.
Proof.
  output_cases type msg s.
  - exists []. split; [reflexivity | constructor].
  - cbn. exists (Printed type (rendered s type msg) (printLevel config)
                   :: cleared config s type msg options).
    split; [reflexivity|].
    constructor; [now intros t x lvl [= _ _ <-]|].
    unfold cleared.
    destruct (canClearScreen config && _); repeat constructor; discriminate.
Qed.

(** *** One call of a method *)

Lemma call_level c s : level (call config ctx c s).1 = level s.1.
Proof.
  destruct s as [w l].
  destruct c; cbn; unfold viteLogger.info, viteLogger.warn,
    viteLogger.warnOnce, viteLogger.error; try reflexivity;
    try (rewrite output_level; reflexivity).
  case_bool_decide; [reflexivity|]. cbn. now rewrite output_level.
Qed.

Lemma call_events c s :
  exists new,
    events (call config ctx c s).1 = (new ++ events s.1)%list
    /\ Forall (fun e => forall t x lvl,
                 e = Printed t x lvl -> lvl = printLevel config) new.
Proof.
  destruct s as [w l].
  destruct c; cbn; unfold viteLogger.info, viteLogger.warn,
    viteLogger.warnOnce, viteLogger.error, viteLogger.clearScreen;
    try apply (output_events _ _ _ (w, _)).
  - case_bool_decide; [|cbn; apply (output_events _ _ _ (w, _))].
    exists []. split; [reflexivity | constructor].
  - exists [ScreenCleared]. split; [reflexivity|].
    repeat constructor; discriminate.
  - exists []. split; [reflexivity | constructor].
Qed.

Lemma call_hasWarned c s :
  hasWarned s.2 = true -> hasWarned (call config ctx c s).2 = true.
Proof.
  intros Hw. destruct s as [w l].
  destruct c; cbn; unfold viteLogger.info, viteLogger.warn,
    viteLogger.warnOnce, viteLogger.error; try done;
    try (rewrite output_hasWarned; done).
  case_bool_decide; [done|]. cbn. rewrite output_hasWarned. done.
Qed.

Lemma call_warnedMessages c s m :
  m ∈ warnedMessages (call config ctx c s).2 <->
  m ∈ warnedMessages s.2 \/ exists opts, c = WarnOnce m opts.
Proof.
  destruct s as [w l].
  destruct c; cbn; unfold viteLogger.info, viteLogger.warn,
    viteLogger.warnOnce, viteLogger.error;
    try rewrite output_warnedMessages; cbn;
    try (split; [auto | intros [?|[? ?]]; [done | discriminate]]).
  case_bool_decide as Hin; cbn.
  - split; [auto|]. intros [?|[? [= -> _]]]; done.
  - rewrite elem_of_union, elem_of_singleton, output_warnedMessages. cbn.
    split.
    + intros [->|?]; eauto.
    + intros [?|[? [= -> _]]]; auto.
Qed.

Lemma call_loggedErrors c s e :
  e ∈ loggedErrors (call config ctx c s).2 <->
  e ∈ loggedErrors s.2
  \/ (carried c = Some e /\ reachesPrint config ctx c s = true).
Proof.
  destruct s as [w l].
  destruct c as [msg opts|msg opts|msg opts|msg opts| |e']; cbn;
    unfold viteLogger.info, viteLogger.warn, viteLogger.warnOnce,
      viteLogger.error; cbn.
  1,2,4: rewrite output_loggedErrors; cbn; rewrite negb_true_iff;
    destruct opts as [o|]; cbn; intuition congruence.
  - case_bool_decide as Hin; cbn.
    + intuition congruence.
    + rewrite output_loggedErrors; cbn. rewrite negb_true_iff.
      destruct opts as [o|]; cbn; intuition congruence.
  - intuition congruence.
  - intuition congruence.
Qed.

(** *** Sequences of calls *)

Lemma calls_cons c cs s :
  calls config ctx (c :: cs) s = calls config ctx cs (call config ctx c s).
Proof. reflexivity. Qed.

Lemma calls_app cs1 cs2 s :
  calls config ctx (cs1 ++ cs2) s = calls config ctx cs2 (calls config ctx cs1 s).
Proof. unfold calls. apply foldl_app. Qed.

Lemma calls_level cs s : level (calls config ctx cs s).1 = level s.1.
Proof.
  revert s. induction cs as [|c cs IH]; intros s; [reflexivity|].
  rewrite calls_cons, IH. apply call_level.
Qed.

Lemma calls_hasWarned cs s :
  hasWarned s.2 = true -> hasWarned (calls config ctx cs s).2 = true.
Proof.
  revert s. induction cs as [|c cs IH]; intros s Hw; [done|].
  rewrite calls_cons. apply IH. now apply call_hasWarned.
Qed.

Lemma calls_warnedMessages cs s m :
  m ∈ warnedMessages (calls config ctx cs s).2 <->
  m ∈ warnedMessages s.2 \/ exists opts, WarnOnce m opts ∈ cs.
Proof.
  revert s. induction cs as [|c cs IH]; intros s.
  - split; [auto|]. intros [?|[opts Hin]]; [done|]. inversion Hin.
  - rewrite calls_cons, IH, call_warnedMessages. split.
    + intros [[?|[opts ->]]|[opts Hin]]; [auto|right..].
      * exists opts. left.
      * exists opts. now right.
    + intros [?|[opts Hin]]; [auto|].
      apply elem_of_cons in Hin as [<-|Hin]; eauto.
Qed.

Lemma calls_loggedErrors_keep cs s e :
  e ∈ loggedErrors s.2 -> e ∈ loggedErrors (calls config ctx cs s).2.
Proof.
  revert s. induction cs as [|c cs IH]; intros s He; [done|].
  rewrite calls_cons. apply IH, call_loggedErrors. now left.
Qed.

Lemma calls_loggedErrors_from cs s e :
  e ∈ loggedErrors (calls config ctx cs s).2 ->
  e ∈ loggedErrors s.2 \/ exists c, c ∈ cs /\ carried c = Some e.
Proof.
  revert s. induction cs as [|c cs IH]; intros s; [cbn; auto|].
  rewrite calls_cons. intros He. apply IH in He as [He|(c' & Hin & Hc)].
  - apply call_loggedErrors in He as [?|[Hc _]]; [auto|].
    right. exists c. split; [left | done].
  - right. exists c'. split; [now right | done].
Qed.

Lemma suppressed_calls_skip (mid : list (LogType.t * string * LogErrorOptions)) s :
  Forall (fun c => suppressed config ctx c.1.1 c.1.2 = true) mid ->
  foldl (fun s c => output config ctx c.1.1 c.1.2 c.2 s) s mid = s.
Proof.
  induction 1 as [|c mid Hc _ IH]; cbn; [reflexivity|].
  now rewrite output_suppressed.
Qed.

End Facts.

(** *** The claims *)

(** C1, as amended.  On a logger made by [createViteLogger], in any
    sequence of calls: the first [warnOnce] call with a given message
    records the message and, unless an early return of [output] suppresses
    it, hands exactly one line to consola; every later [warnOnce] call with
    that message leaves the whole state as it is, so it prints nothing. *)
Theorem warnOnce_each_message_at_most_once
  {env : Surroundings} (config : InlineConfig) (ctx : Ctx)
  (w : Shared) (cs1 cs2 : list Call) (msg : string)
  (opts1 opts2 : option LogErrorOptions) :
  let s1 := calls config ctx cs1 (w, createViteLogger) in
  let s2 := viteLogger.warnOnce config ctx msg opts1 s1 in
  let s3 := calls config ctx cs2 s2 in
  ((forall opts, WarnOnce msg opts ∉ cs1) ->
   msg ∈ warnedMessages s2.2
   /\ events s2.1 =
        ((if suppressed config ctx LogType.warn msg then []
          else Printed LogType.warn (rendered s1.1 LogType.warn msg)
                 (printLevel config)
                 :: cleared config s1.1 LogType.warn msg
                      (default noOptions opts1))
           ++ events s1.1)%list)
  /\ viteLogger.warnOnce config ctx msg opts2 s3 = s3.
Proof.
  intros s1 s2 s3. split.
  - intros Hfirst.
    assert (Hnew : msg ∉ warnedMessages s1.2).
    { intros Hin. apply calls_warnedMessages in Hin as [Hin|[opts Hin]].
      - cbn in Hin. now apply not_elem_of_empty in Hin.
      - now apply (Hfirst opts). }
    subst s2. unfold viteLogger.warnOnce.
    rewrite bool_decide_eq_false_2 by done. cbn. split.
    + apply elem_of_union_l, elem_of_singleton. reflexivity.
    + destruct s1 as [w1 l1]. cbn.
      destruct (suppressed config ctx LogType.warn msg) eqn:Hs.
      * now rewrite output_suppressed.
      * now rewrite output_printed.
  - assert (Hin : msg ∈ warnedMessages s3.2).
    { subst s3. apply calls_warnedMessages. left.
      subst s2. unfold viteLogger.warnOnce.
      case_bool_decide; [done|]. cbn.
      apply elem_of_union_l, elem_of_singleton. reflexivity. }
    unfold viteLogger.warnOnce. now rewrite bool_decide_eq_true_2.
Qed.

(** C2, as amended.  Among the calls of [output] that no early return
    suppresses: a call with the type and message of the one before it adds
    one to the repeat counter and prints the message with the suffix
    [(xN)], [N] being the counter plus one; a call with another type or
    message sets the counter to zero and prints the bare message; either
    way the pair of the call is the last pair afterwards.  Suppressed calls
    in between change nothing. *)
Theorem repeat_counter_follows_last_printed_pair
  {env : Surroundings} (config : InlineConfig) (ctx : Ctx)
  (s : Shared * Logger)
  (type0 : LogType.t) (msg0 : string) (options0 : LogErrorOptions)
  (mid : list (LogType.t * string * LogErrorOptions))
  (type : LogType.t) (msg : string) (options : LogErrorOptions) :
  suppressed config ctx type0 msg0 = false ->
  Forall (fun c => suppressed config ctx c.1.1 c.1.2 = true) mid ->
  suppressed config ctx type msg = false ->
  let s1 := output config ctx type0 msg0 options0 s in
  let s2 :=
    output config ctx type msg options
      (foldl (fun s c => output config ctx c.1.1 c.1.2 c.2 s) s1 mid) in
  lastType s2.1 = Some type
  /\ lastMsg s2.1 = Some msg
  /\ if bool_decide (type0 = type /\ msg0 = msg)
     then
       duplicateCount s2.1 = (duplicateCount s1.1 + 1)%N
       /\ events s2.1 =
            (Printed type
               (msg ++ colorize "dim"
                         (" (x" ++ pretty (duplicateCount s2.1 + 1)%N ++ ")"))
               (printLevel config)
             :: (if canClearScreen config then [ScreenCleared] else [])
             ++ events s1.1)%list
     else
       duplicateCount s2.1 = 0%N
       /\ events s2.1 =
            (Printed type msg (printLevel config)
             :: (if canClearScreen config && options_clear options
                 then [ScreenCleared] else [])
             ++ events s1.1)%list.
Proof.
  intros Hs0 Hmid Hs s1 s2. subst s2.
  rewrite (suppressed_calls_skip config ctx mid s1 Hmid). subst s1.
  destruct s as [w l]. rewrite (output_printed _ _ _ _ _ _ _ Hs0).
  rewrite (output_printed _ _ _ _ _ _ _ Hs). cbn.
  split; [reflexivity|]. split; [reflexivity|].
  unfold rendered, cleared, sameAsLast. cbn.
  case_bool_decide as Hsame.
  - destruct Hsame as [-> ->].
    rewrite !bool_decide_eq_true_2 by reflexivity. cbn.
    rewrite andb_true_r. split; reflexivity.
  - assert (Hne : bool_decide (Some type0 = Some type)
                  && bool_decide (Some msg0 = Some msg) = false).
    { apply andb_false_iff.
      destruct (decide (type0 = type)) as [->|Ht].
      - right. apply bool_decide_eq_false_2. intros [= ->]. now apply Hsame.
      - left. apply bool_decide_eq_false_2. now intros [= ->]. }
    rewrite Hne. cbn. rewrite append_empty_r. split; reflexivity.
Qed.

(** C3, as amended.  A call that gets as far as the print (no early return
    of [output], and for [warnOnce] a message not seen before) and carries
    the error object [e] makes [hasErrorLogged(e)] true from then on; on a
    logger made by [createViteLogger], [hasErrorLogged(e)] is false as long
    as no call has carried [e]. *)
Theorem errors_of_printed_calls_are_remembered
  {env : Surroundings} (config : InlineConfig) (ctx : Ctx)
  (w : Shared) (cs1 cs2 cs : list Call) (c : Call) (e : ErrorObject) :
  let s0 := (w, createViteLogger) in
  (carried c = Some e ->
   reachesPrint config ctx c (calls config ctx cs1 s0) = true ->
   viteLogger.hasErrorLogged e (calls config ctx (cs1 ++ c :: cs2) s0) = true)
  /\ ((forall c', c' ∈ cs -> carried c' <> Some e) ->
      viteLogger.hasErrorLogged e (calls config ctx cs s0) = false).
Proof.
  intros s0. split.
  - intros Hc Hr. unfold viteLogger.hasErrorLogged.
    apply bool_decide_eq_true_2.
    rewrite calls_app, calls_cons. apply calls_loggedErrors_keep.
    apply call_loggedErrors. now right.
  - intros Hnone. unfold viteLogger.hasErrorLogged.
    apply bool_decide_eq_false_2. intros He.
    apply calls_loggedErrors_from in He as [He|(c' & Hin & Hc)].
    + cbn in He. now apply not_elem_of_empty in He.
    + now apply (Hnone c').
Qed.

(** C6, as amended.  When [process.env.DEBUG] is not set, [output] returns
    at once, leaving the whole state as it is and printing nothing, for: a
    message that starts with [Sourcemap] and mentions [node_modules]; a
    message with Vite's "didn't resolve at build time" text whose
    referenced id resolves among the public assets; and an [info] message
    that contains the relative output directory when [ctx.hideOutput] is
    set. *)
Theorem noisy_messages_are_suppressed
  {env : Surroundings} (config : InlineConfig) (ctx : Ctx)
  (type : LogType.t) (msg : string) (options : LogErrorOptions)
  (s : Shared * Logger) :
  DEBUG = false ->
  (startsWith msg "Sourcemap" = true ->
   includes msg "node_modules" = true ->
   output config ctx type msg options s = s)
  /\ (forall id,
        includes msg unresolvedAtBuildTime = true ->
        matchRef "" (trim msg) = Some id ->
        resolveFromPublicAssets id = true ->
        output config ctx type msg options s = s)
  /\ (hideOutput ctx = true ->
      includes msg (relativeOutDir config) = true ->
      output config ctx LogType.info msg options s = s).
Proof.
  intros Hdebug. split; [|split].
  - intros H1 H2. apply output_suppressed. unfold suppressed.
    now rewrite Hdebug, H1, H2.
  - intros id H1 H2 H3. apply output_suppressed. unfold suppressed.
    rewrite Hdebug, H1, H2, H3, (matchRef_truthy _ _ _ H2). cbn.
    now rewrite orb_true_r.
  - intros H1 H2. apply output_suppressed. unfold suppressed.
    rewrite Hdebug, H1, H2. cbn. apply orb_true_r.
Qed.

(** C9.  Every call of a method of the logger leaves [logger.level] as it
    found it, and every line that the call hands to consola is printed
    while the level is the one of [config.logLevel] ([info] when there is
    none). *)
Theorem level_overridden_for_print_then_restored
  {env : Surroundings} (config : InlineConfig) (ctx : Ctx)
  (c : Call) (s : Shared * Logger) :
  level (call config ctx c s).1 = level s.1
  /\ exists new,
       events (call config ctx c s).1 = (new ++ events s.1)%list
       /\ Forall (fun e => match e with
                           | Printed _ _ lvl => lvl = printLevel config
                           | ScreenCleared => True
                           end) new.
Proof.
  split; [apply call_level|].
  destruct (call_events config ctx c s) as (new & Hev & Hall).
  exists new. split; [done|].
  eapply Forall_impl; [exact Hall|].
  intros [t x lvl|] He; [now apply (He t x lvl) | done].
Qed.

(** C10.  [hasWarned] starts [false]; [warn], [error] and a [warnOnce]
    with a message not seen before set it; [info] leaves it as it is; no
    sequence of calls takes it back to [false]. *)
Theorem hasWarned_set_and_never_reset
  {env : Surroundings} (config : InlineConfig) (ctx : Ctx) :
  hasWarned createViteLogger = false
  /\ (forall msg opts s,
        hasWarned (viteLogger.warn config ctx msg opts s).2 = true)
  /\ (forall msg opts s,
        hasWarned (viteLogger.error config ctx msg opts s).2 = true)
  /\ (forall msg opts s,
        msg ∉ warnedMessages s.2 ->
        hasWarned (viteLogger.warnOnce config ctx msg opts s).2 = true)
  /\ (forall msg opts s,
        hasWarned (viteLogger.info config ctx msg opts s).2 = hasWarned s.2)
  /\ (forall cs s,
        hasWarned s.2 = true -> hasWarned (calls config ctx cs s).2 = true).
Proof.
  split; [reflexivity|]. split; [|split; [|split; [|split]]].
  - intros msg opts s. unfold viteLogger.warn.
    now rewrite output_hasWarned.
  - intros msg opts s. unfold viteLogger.error.
    now rewrite output_hasWarned.
  - intros msg opts s Hnew. unfold viteLogger.warnOnce.
    rewrite bool_decide_eq_false_2 by done. cbn.
    now rewrite output_hasWarned.
  - intros msg opts s. unfold viteLogger.info. apply output_hasWarned.
  - intros cs s. apply calls_hasWarned.
Qed.

(** *** The claims at concrete inputs

    The runs below use the reference surroundings: no terminal, an output
    directory [.nuxt/dist/client] below the root [/app], and [/favicon.ico]
    as the only public asset. *)

(** C1 as stated fails: on a fresh logger, the first [warnOnce] call with
    a source-map warning about [node_modules] records the message but
    produces no output. *)
Lemma first_warnOnce_of_a_noisy_message_prints_nothing :
  let msg := "Sourcemap for /app/node_modules/x/index.js points to missing source files" in
  let s := (Reference.shared, createViteLogger) in
  let s' :=
    viteLogger.warnOnce (env := Reference.logger false) Reference.config
      {| hideOutput := false |} msg None s in
  (msg ∉ warnedMessages s.2)
  /\ events s'.1 = events s.1
  /\ (msg ∈ warnedMessages s'.2).
Proof.
  cbv zeta. split; [apply not_elem_of_empty|].
  split; [vm_compute; reflexivity|].
  refine (bool_decide_unpack _ _). vm_compute. exact I.
Qed.

Lemma warnOnce_each_message_at_most_once_witness :
  let env := Reference.logger false in
  let ctx := {| hideOutput := false |} in
  let s1 := calls Reference.config ctx [Info "ready" None]
              (Reference.shared, createViteLogger) in
  let s2 := viteLogger.warnOnce Reference.config ctx "deprecated" None s1 in
  let s3 := calls Reference.config ctx [Warn "slow" None] s2 in
  events s2.1
    = [Printed LogType.warn "deprecated" 3; Printed LogType.info "ready" 3]
  /\ viteLogger.warnOnce Reference.config ctx "deprecated" None s3 = s3.
Proof.
  intros env ctx s1 s2 s3.
  destruct (warnOnce_each_message_at_most_once (env := env)
              Reference.config ctx Reference.shared
              [Info "ready" None] [Warn "slow" None] "deprecated" None None)
    as [Hfirst Hlater].
  split; [|exact Hlater].
  destruct Hfirst as [_ Hev].
  - intros opts Hin. apply list_elem_of_singleton in Hin. discriminate.
  - subst s2 s1. rewrite Hev. vm_compute. reflexivity.
Defined.

(** C2 as stated fails: the third call below differs from the call just
    before it, which was suppressed, yet the counter goes up and the line
    gets the suffix. *)
Lemma repeat_counted_across_a_suppressed_call :
  let env := Reference.logger false in
  let ctx := {| hideOutput := false |} in
  let s0 := (Reference.shared, createViteLogger) in
  let s1 := output Reference.config ctx LogType.warn "A" noOptions s0 in
  let s2 :=
    output Reference.config ctx LogType.warn
      "Sourcemap for /app/node_modules/x/index.js points to missing source files"
      noOptions s1 in
  let s3 := output Reference.config ctx LogType.warn "A" noOptions s2 in
  s2 = s1
  /\ duplicateCount s3.1 = 1%N
  /\ events s3.1
     = [Printed LogType.warn ("A" ++ colorize "dim" " (x2)") 3;
        Printed LogType.warn "A" 3].
Proof. cbv zeta. repeat split; vm_compute; reflexivity. Qed.

Lemma repeat_counter_follows_last_printed_pair_witness :
  let env := Reference.logger false in
  let ctx := {| hideOutput := false |} in
  let noisy :=
    "Sourcemap for /app/node_modules/x/index.js points to missing source files" in
  let s1 :=
    output Reference.config ctx LogType.warn "A" noOptions
      (Reference.shared, createViteLogger) in
  let s2 :=
    output Reference.config ctx LogType.warn "A" noOptions
      (output Reference.config ctx LogType.info noisy noOptions s1) in
  duplicateCount s2.1 = 1%N /\ lastMsg s2.1 = Some "A".
Proof.
  intros env ctx noisy s1 s2.
  destruct (repeat_counter_follows_last_printed_pair (env := env)
              Reference.config ctx (Reference.shared, createViteLogger)
              LogType.warn "A" noOptions [(LogType.info, noisy, noOptions)]
              LogType.warn "A" noOptions)
    as (_ & Hmsg & Hif).
  - vm_compute. reflexivity.
  - repeat constructor.
  - vm_compute. reflexivity.
  - rewrite bool_decide_eq_true_2 in Hif by (split; reflexivity).
    destruct Hif as [Hdc _]. split; [|exact Hmsg].
    subst s2 s1. cbn [foldl fst snd] in Hdc. rewrite Hdc.
    vm_compute. reflexivity.
Defined.

(** C3 as stated fails: a [warnOnce] call that repeats a message returns
    before [output], so the error object it carries is not remembered. *)
Lemma error_of_repeated_warnOnce_is_not_remembered :
  let env := Reference.logger false in
  let ctx := {| hideOutput := false |} in
  let s :=
    calls Reference.config ctx
      [WarnOnce "deprecated" None;
       WarnOnce "deprecated"
         (Some {| options_clear := false; options_error := Some 7 |})]
      (Reference.shared, createViteLogger) in
  viteLogger.hasErrorLogged 7 s = false.
Proof. vm_compute. reflexivity. Qed.

Lemma errors_of_printed_calls_are_remembered_witness :
  let env := Reference.logger false in
  let ctx := {| hideOutput := false |} in
  let boom :=
    Error "boom" (Some {| options_clear := false; options_error := Some 7 |}) in
  viteLogger.hasErrorLogged 7
    (calls Reference.config ctx ([] ++ boom :: [Info "next" None])
       (Reference.shared, createViteLogger)) = true
  /\ viteLogger.hasErrorLogged 7
       (calls Reference.config ctx [Info "next" None]
          (Reference.shared, createViteLogger)) = false.
Proof.
  intros env ctx boom.
  destruct (errors_of_printed_calls_are_remembered (env := env)
              Reference.config ctx Reference.shared [] [Info "next" None]
              [Info "next" None] boom 7) as [Hyes Hno].
  split.
  - apply Hyes; vm_compute; reflexivity.
  - apply Hno. intros c' Hin. apply list_elem_of_singleton in Hin.
    subst c'. discriminate.
Defined.

(** C6 as stated fails on two counts.  With [process.env.DEBUG] set, the
    source-map warning goes through to consola.  And, [DEBUG] not set, a
    message that holds the words "didn't resolve at build time" without
    the rest of Vite's sentence is printed although the id it names
    resolves among the public assets. *)
Lemma noisy_messages_that_are_printed :
  let sourcemap :=
    "Sourcemap for /app/node_modules/x/index.js points to missing source files" in
  let short :=
    "/favicon.ico referenced in /app/assets/main.css didn't resolve at build time" in
  let ctx := {| hideOutput := true |} in
  events
    (output (env := Reference.logger true) Reference.config ctx
       LogType.warn sourcemap noOptions
       (Reference.shared, createViteLogger)).1
  = [Printed LogType.warn sourcemap 3]
  /\ includes short "didn't resolve at build time" = true
  /\ matchRef "" (trim short) = Some "/favicon.ico"
  /\ resolveFromPublicAssets (Surroundings := Reference.logger false)
       "/favicon.ico" = true
  /\ events
       (output (env := Reference.logger false) Reference.config ctx
          LogType.warn short noOptions
          (Reference.shared, createViteLogger)).1
     = [Printed LogType.warn short 3].
Proof. cbv zeta. repeat split; vm_compute; reflexivity. Qed.

(** The second message below starts with a no-break space and names the
    id on a line that starts after U+2028. *)
Lemma noisy_messages_are_suppressed_witness :
  let env := Reference.logger false in
  let ctx := {| hideOutput := true |} in
  let s := (Reference.shared, createViteLogger) in
  let nbsp := String (ascii_of_N 194) (String (ascii_of_N 160) "") in
  let ls :=
    String (ascii_of_N 226) (String (ascii_of_N 128)
      (String (ascii_of_N 168) "")) in
  output Reference.config ctx LogType.warn
    "Sourcemap for /app/node_modules/x/index.js points to missing source files"
    noOptions s = s
  /\ output Reference.config ctx LogType.warn
       (nbsp ++ "left as is:" ++ ls
        ++ "/favicon.ico referenced in /app/assets/main.css "
        ++ unresolvedAtBuildTime)
       noOptions s = s
  /\ output Reference.config ctx LogType.info
       ".nuxt/dist/client/_nuxt/entry.js  12.3 kB" noOptions s = s.
Proof.
  intros env ctx s nbsp ls. split; [|split].
  - apply (noisy_messages_are_suppressed (env := env) Reference.config ctx
             LogType.warn _ noOptions s); vm_compute; reflexivity.
  - apply (noisy_messages_are_suppressed (env := env) Reference.config ctx
             LogType.warn _ noOptions s eq_refl) with (id := "/favicon.ico");
      vm_compute; reflexivity.
  - apply (noisy_messages_are_suppressed (env := env) Reference.config ctx
             LogType.info _ noOptions s); vm_compute; reflexivity.
Defined.

Lemma hasWarned_set_and_never_reset_witness :
  let env := Reference.logger false in
  let ctx := {| hideOutput := false |} in
  let s := (Reference.shared, createViteLogger) in
  hasWarned (viteLogger.warnOnce Reference.config ctx "deprecated" None s).2
  = true
  /\ hasWarned
       (calls Reference.config ctx [Info "a" None; ClearScreen]
          (viteLogger.warn Reference.config ctx "w" None s)).2 = true.
Proof.
  intros env ctx s.
  destruct (hasWarned_set_and_never_reset (env := env) Reference.config ctx)
    as (_ & Hwarn & _ & Honce & _ & Hkeep).
  split.
  - apply Honce. apply not_elem_of_empty.
  - apply Hkeep, Hwarn.
Defined.

End LoggerFacts.

(** * Further properties of the classifier *)

Module PluginsMore.
Import JS JSFacts Plugins PluginsFacts Notions.

(** *** Last units *)

Lemma append_last_eq (a b : string) c d :
  a ++ String c "" = b ++ String d "" -> c = d.
Proof.
  revert b. induction a as [|x a IH]; intros [|y b];
    rewrite ?append_empty_l, ?append_cons.
  - now intros [= ->].
  - intros [= _ Hb]. destruct b; discriminate Hb.
  - intros [= _ Ha]. destruct a; discriminate Ha.
  - intros [= _ H]. now apply IH in H.
Qed.

Lemma endsWith_last s p q c d :
  endsWith s (p ++ String c "") = true ->
  endsWith s (q ++ String d "") = true -> c = d.
Proof.
  intros [pre ->]%endsWith_spec [pre' H]%endsWith_spec.
  rewrite <- !append_assoc in H. now apply append_last_eq in H.
Qed.

Lemma endsWith_trans s p q :
  endsWith s p = true -> endsWith p q = true -> endsWith s q = true.
Proof.
  intros [pre ->]%endsWith_spec [pre' ->]%endsWith_spec.
  apply endsWith_spec. exists (pre ++ pre'). now rewrite append_assoc.
Qed.

Lemma typeIncludes_subset types types' t :
  (forall b, b ∈ types -> b ∈ types') ->
  typeIncludes types t = true -> typeIncludes types' t = true.
Proof.
  intros Hsub. destruct t as [[s|l]|]; cbn; try discriminate.
  rewrite !existsb_exists. intros (b & Hb & Heq). exists b.
  split; [|exact Heq]. apply list_elem_of_In, Hsub, list_elem_of_In, Hb.
Qed.

Lemma typeIncludes_other types s :
  isBlockName s = false -> typeIncludes types (Some (QString s)) = false.
Proof.
  intros Hs. cbn. destruct (existsb _ types) eqn:He; [|reflexivity].
  apply existsb_exists in He as (b & _ & Hb). apply String.eqb_eq in Hb.
  subst s. destruct b; discriminate Hs.
Qed.

Lemma typeIncludes_nil t : typeIncludes [] t = false.
Proof. now destruct t as [[s|l]|]. Qed.

Section Facts.
Context {imports : Imports}.

(** The two tests of [isVue] that look at the query, as booleans. *)
Lemma isVue_with_query (id : string) (opts : VueOpts) (url : string) :
  fileURL id = Some url ->
  search (parseURL url) <> "" ->
  let q := parseQuery (search (parseURL url)) in
  isVue id opts
  = Some (negb (truthyField q "nuxt_component")
          && ((truthyField q "macro"
               && (String.eqb (search (parseURL url)) "?macro=true"
                   || match type opts with
                      | None => true
                      | Some types =>
                          typeIncludes types (Some (QString "script"))
                      end))
              || (hasKey q "vue"
                  && match type opts with
                     | None => true
                     | Some types =>
                         typeIncludes types
                           (if hasKey q "setup" then Some (QString "script")
                            else q !! "type")
                     end))).
Proof.
  intros Hurl Hs q. unfold isVue. rewrite Hurl. cbn. fold q.
  apply String.eqb_neq in Hs. unfold truthy. rewrite Hs. cbn.
  rewrite andb_false_r.
  destruct (truthyField q "nuxt_component"); [reflexivity|]. cbn.
  destruct (truthyField q "macro" && _); [reflexivity|]. cbn.
  destruct (hasKey q "vue"); [|reflexivity]. cbn.
  destruct (type opts) as [types|]; [|reflexivity].
  now destruct (typeIncludes types _).
Qed.

Lemma isVue_without_query (id : string) (opts : VueOpts) (url : string) :
  fileURL id = Some url ->
  search (parseURL url) = "" ->
  isVue id opts = Some (endsWith id ".vue").
Proof.
  intros Hurl Hs. unfold isVue. rewrite Hurl. cbn. rewrite Hs. cbn.
  rewrite andb_true_r. now destruct (endsWith id ".vue").
Qed.

(** X1.  The filter [opts.type] only narrows: an id that [isVue] accepts
    under a filter is accepted under every filter that lists at least the
    same block types, and without a filter. *)
Theorem isVue_filter_only_narrows
  (id : string) (types types' : list BlockType) :
  (forall b, b ∈ types -> b ∈ types') ->
  isVue id {| type := Some types |} = Some true ->
  isVue id {| type := Some types' |} = Some true
  /\ isVue id noOpts = Some true.
Proof.
  intros Hsub Hvue.
  destruct (fileURL id) as [url|] eqn:Hurl;
    [|unfold isVue in Hvue; rewrite Hurl in Hvue; discriminate].
  destruct (String.eqb_spec (search (parseURL url)) "") as [Hs|Hs].
  - rewrite (isVue_without_query _ _ _ Hurl Hs) in Hvue.
    rewrite !(fun o => isVue_without_query id o url Hurl Hs). auto.
  - rewrite (isVue_with_query _ _ _ Hurl Hs) in Hvue.
    rewrite !(fun o => isVue_with_query id o url Hurl Hs).
    cbn [type noOpts] in *. apply (inj Some) in Hvue.
    apply andb_true_iff in Hvue as [Hn Hvue]. rewrite Hn.
    apply orb_true_iff in Hvue as [Hm|Hv].
    + apply andb_true_iff in Hm as [Hm Hc]. rewrite Hm.
      split; [|now rewrite orb_true_r].
      apply orb_true_iff in Hc as [Hc|Hc]; [now rewrite Hc|].
      now rewrite (typeIncludes_subset _ _ _ Hsub Hc), orb_true_r.
    + apply andb_true_iff in Hv as [Hv Hc]. rewrite Hv.
      rewrite (typeIncludes_subset _ _ _ Hsub Hc).
      split; f_equal; cbn; apply orb_true_r.
Qed.

(** X2.  An id whose query holds a truthy [nuxt_component] is never a Vue
    file, whatever other markers the query holds and whatever the filter:
    the test comes before those for [macro] and [vue]. *)
Theorem nuxt_component_wrapper_is_not_vue
  (id : string) (opts : VueOpts) (url : string) :
  fileURL id = Some url ->
  search (parseURL url) <> "" ->
  truthyField (parseQuery (search (parseURL url))) "nuxt_component" = true ->
  isVue id opts = Some false.
Proof.
  intros Hurl Hs Hn. rewrite (isVue_with_query _ _ _ Hurl Hs). cbv zeta.
  now rewrite Hn.
Qed.

(** X3.  An id with a truthy [macro] in its query and no truthy
    [nuxt_component] is a Vue file when the query string is exactly
    [?macro=true], whatever the filter, and otherwise when the filter is
    absent or lists [script]. *)
Theorem macro_id_is_vue (id : string) (opts : VueOpts) (url : string) :
  fileURL id = Some url ->
  let q := parseQuery (search (parseURL url)) in
  truthyField q "nuxt_component" = false ->
  truthyField q "macro" = true ->
  search (parseURL url) = "?macro=true"
  \/ (search (parseURL url) <> ""
      /\ (type opts = None \/ exists types, type opts = Some types /\ script ∈ types)) ->
  isVue id opts = Some true.
Proof.
  intros Hurl q Hn Hm Hcase.
  assert (Hs : search (parseURL url) <> "").
  { destruct Hcase as [H|[H _]]; [rewrite H; discriminate | exact H]. }
  rewrite (isVue_with_query _ _ _ Hurl Hs). cbv zeta. fold q. rewrite Hn, Hm. cbn [negb andb].
  destruct Hcase as [->|[_ [->|(types & -> & Hin)]]].
  - reflexivity.
  - now rewrite orb_true_r.
  - pose proof (typeIncludes_block types script) as Ht.
    cbn [blockName] in Ht. rewrite Ht, bool_decide_eq_true_2 by done.
    now rewrite orb_true_r.
Qed.

(** X4.  For an id whose query holds the key [vue], no truthy
    [nuxt_component] and no truthy [macro]: with the key [setup] the block
    counts as [script], whatever [type] says; without it, a block whose
    [type] is the block name [b] passes exactly the filters that list [b];
    and a block whose [type] is missing, an array or no block name passes
    only when there is no filter. *)
Theorem vue_block_follows_effective_type
  (id : string) (opts : VueOpts) (url : string) :
  fileURL id = Some url ->
  search (parseURL url) <> "" ->
  let q := parseQuery (search (parseURL url)) in
  let allows (b : BlockType) :=
    match type opts with
    | None => true
    | Some types => bool_decide (b ∈ types)
    end in
  truthyField q "nuxt_component" = false ->
  truthyField q "macro" = false ->
  hasKey q "vue" = true ->
  (hasKey q "setup" = true -> isVue id opts = Some (allows script))
  /\ (forall b, hasKey q "setup" = false ->
                q !! "type" = Some (QString (blockName b)) ->
                isVue id opts = Some (allows b))
  /\ (hasKey q "setup" = false ->
      match q !! "type" with
      | Some (QString s) => isBlockName s = false
      | Some (QArray _) | None => True
      end ->
      isVue id opts = Some (bool_decide (type opts = None))).
Proof.
  intros Hurl Hs q allows Hn Hm Hv.
  rewrite (isVue_with_query _ _ _ Hurl Hs). cbv zeta. fold q.
  rewrite Hn, Hm, Hv. cbn [negb andb orb]. subst allows. cbv beta.
  split; [|split].
  - intros ->. destruct (type opts) as [types|]; [|reflexivity].
    pose proof (typeIncludes_block types script) as Ht.
    cbn [blockName] in Ht. now rewrite Ht.
  - intros b -> ->. destruct (type opts) as [types|]; [|reflexivity].
    now rewrite typeIncludes_block.
  - intros -> Hty. destruct (type opts) as [types|]; [|reflexivity].
    rewrite bool_decide_eq_false_2 by discriminate. f_equal.
    destruct (q !! "type") as [[s|l]|]; try reflexivity.
    now apply typeIncludes_other.
Qed.

(** X5.  An empty filter, [type: []], is still a filter: under it [isVue]
    accepts only a bare [.vue] path and the query string [?macro=true]. *)
Theorem empty_filter_accepts_only_bare_and_macro
  (id : string) (url : string) :
  fileURL id = Some url ->
  let s := search (parseURL url) in
  let q := parseQuery s in
  isVue id {| type := Some [] |} = Some true <->
  (s = "" /\ endsWith id ".vue" = true)
  \/ (s = "?macro=true" /\ truthyField q "nuxt_component" = false
      /\ truthyField q "macro" = true).
Proof.
  intros Hurl s q. subst s.
  destruct (String.eqb_spec (search (parseURL url)) "") as [Hs|Hs].
  - rewrite (isVue_without_query _ _ _ Hurl Hs), Hs. split.
    + intros [= ->]. now left.
    + intros [[_ ->]|[? _]]; [reflexivity | discriminate].
  - rewrite (isVue_with_query _ _ _ Hurl Hs). cbv zeta. fold q.
    cbn [type]. rewrite !typeIncludes_nil, !andb_false_r, !orb_false_r.
    split.
    + intros [= H]. right.
      apply andb_true_iff in H as [Hn H].
      apply andb_true_iff in H as [Hm Heq].
      apply String.eqb_eq in Heq. apply negb_true_iff in Hn. auto.
    + intros [[? _]|(Heq & Hn & Hm)]; [done|].
      rewrite Hn, Hm, Heq. reflexivity.
Qed.

(** *** The loader tags *)

Lemma getLoader_value (id : string) (url : string) :
  fileURL id = Some url ->
  let ext := extname (pathname (parseURL url)) in
  getLoader id
  = Some (if String.eqb ext ".vue" then Some vue
          else if testAtEnd JS_RE ext
               then Some (if endsWith ext "x" then tsx else ts)
               else None).
Proof.
  intros Hurl ext. unfold getLoader. rewrite Hurl. cbn. fold ext.
  destruct (String.eqb ext ".vue"); [reflexivity|].
  now destruct (testAtEnd JS_RE ext).
Qed.

End Facts.

Lemma scriptExtensions_split e :
  e ∈ scriptExtensions <-> e ∈ plainExtensions \/ e ∈ xExtensions.
Proof.
  unfold scriptExtensions, plainExtensions, xExtensions.
  rewrite !elem_of_cons, !elem_of_nil. tauto.
Qed.

Lemma plainExtensions_last e :
  e ∈ plainExtensions -> exists p, e = p ++ "s".
Proof.
  unfold plainExtensions. rewrite !elem_of_cons, elem_of_nil.
  intros [->|[->|[->|[->|[]]]]];
    [now exists ".j" | now exists ".mj" | now exists ".cj" | now exists ".t"].
Qed.

Lemma xExtensions_last e :
  e ∈ xExtensions -> endsWith e "x" = true.
Proof.
  unfold xExtensions. rewrite !elem_of_cons, elem_of_nil.
  intros [->|[->|[->|[->|[]]]]]; reflexivity.
Qed.

Lemma ends_plain_not_x ext e :
  e ∈ plainExtensions -> endsWith ext e = true -> endsWith ext "x" = false.
Proof.
  intros [p ->]%plainExtensions_last He.
  destruct (endsWith ext "x") eqn:Hx; [|reflexivity].
  pose proof (endsWith_last ext p "" "s" "x" He Hx). discriminate.
Qed.

Lemma ends_script_not_vue ext e :
  e ∈ scriptExtensions -> endsWith ext e = true ->
  endsWith ext ".vue" = false.
Proof.
  intros He Hend. destruct (endsWith ext ".vue") eqn:Hv; [|reflexivity].
  apply scriptExtensions_split in He as [He|He].
  - apply plainExtensions_last in He as [p ->].
    pose proof (endsWith_last ext p ".vu" "s" "e" Hend Hv). discriminate.
  - pose proof (endsWith_trans _ _ _ Hend (xExtensions_last _ He)) as Hx.
    pose proof (endsWith_last ext "" ".vu" "x" "e" Hx Hv). discriminate.
Qed.

Lemma endsWith_refl s : endsWith s s = true.
Proof. apply endsWith_spec. now exists "". Qed.

Lemma ends_x_spec ext :
  (exists e, e ∈ xExtensions /\ endsWith ext e = true) <->
  ext <> ".vue" /\ testAtEnd JS_RE ext = true /\ endsWith ext "x" = true.
Proof.
  split.
  - intros (e & He & Hend). split; [|split].
    + intros ->.
      assert (Hs : e ∈ scriptExtensions)
        by (apply scriptExtensions_split; now right).
      pose proof (ends_script_not_vue ".vue" e Hs Hend) as Hc.
      rewrite endsWith_refl in Hc. discriminate.
    + apply JS_RE_test. exists e. split; [|exact Hend].
      apply scriptExtensions_split. now right.
    + exact (endsWith_trans _ _ _ Hend (xExtensions_last _ He)).
  - intros (_ & (e & He & Hend)%JS_RE_test & Hx). exists e.
    split; [|exact Hend].
    apply scriptExtensions_split in He as [He|He]; [|exact He].
    rewrite (ends_plain_not_x _ _ He Hend) in Hx. discriminate.
Qed.

Lemma ends_plain_spec ext :
  (exists e, e ∈ plainExtensions /\ endsWith ext e = true) <->
  ext <> ".vue" /\ testAtEnd JS_RE ext = true /\ endsWith ext "x" = false.
Proof.
  split.
  - intros (e & He & Hend). split; [|split].
    + intros ->.
      assert (Hs : e ∈ scriptExtensions)
        by (apply scriptExtensions_split; now left).
      pose proof (ends_script_not_vue ".vue" e Hs Hend) as Hc.
      rewrite endsWith_refl in Hc. discriminate.
    + apply JS_RE_test. exists e. split; [|exact Hend].
      apply scriptExtensions_split. now left.
    + exact (ends_plain_not_x _ _ He Hend).
  - intros (_ & (e & He & Hend)%JS_RE_test & Hx). exists e.
    split; [|exact Hend].
    apply scriptExtensions_split in He as [He|He]; [exact He|].
    rewrite (endsWith_trans _ _ _ Hend (xExtensions_last _ He)) in Hx.
    discriminate.
Qed.

Section Loader.
Context {imports : Imports}.

(** X6.  The loader is decided by the extension alone: [vue] exactly for
    [.vue], [tsx] exactly for an extension that ends in [.jsx], [.mjsx],
    [.cjsx] or [.tsx], and [ts] exactly for one that ends in [.js],
    [.mjs], [.cjs] or [.ts]. *)
Theorem getLoader_decided_by_extension (id : string) (url : string) :
  fileURL id = Some url ->
  let ext := extname (pathname (parseURL url)) in
  (getLoader id = Some (Some vue) <-> ext = ".vue")
  /\ (getLoader id = Some (Some tsx) <->
      exists e, e ∈ xExtensions /\ endsWith ext e = true)
  /\ (getLoader id = Some (Some ts) <->
      exists e, e ∈ plainExtensions /\ endsWith ext e = true).
Proof.
  intros Hurl ext. rewrite (getLoader_value _ _ Hurl). fold ext.
  rewrite ends_x_spec, ends_plain_spec.
  destruct (String.eqb_spec ext ".vue") as [Hv|Hv];
    destruct (testAtEnd JS_RE ext); destruct (endsWith ext "x");
    repeat split; intros; try congruence; try tauto;
    repeat match goal with H : _ /\ _ |- _ => destruct H end;
    try congruence.
Qed.

(** X7.  The loader tag and [isJS] agree, given that the extension is the
    end of the path: an id with the loader [ts] or [tsx] is a script for
    [isJS], and an id with the loader [vue] is not. *)
Theorem loader_agrees_with_isJS (id : string) (url : string) :
  fileURL id = Some url ->
  let path := pathname (parseURL url) in
  endsWith path (extname path) = true ->
  (getLoader id = Some (Some ts) \/ getLoader id = Some (Some tsx) ->
   isJS id = Some true)
  /\ (getLoader id = Some (Some vue) -> isJS id = Some false).
Proof.
  intros Hurl path Hext.
  assert (Hjs : isJS id = Some (testAtEnd JS_RE path)).
  { unfold isJS. now rewrite Hurl. }
  rewrite Hjs, (getLoader_value _ _ Hurl). fold path.
  set (ext := extname path) in *. split.
  - intros Hl. f_equal.
    assert (Ht : testAtEnd JS_RE ext = true).
    { destruct (String.eqb ext ".vue"); [destruct Hl; discriminate|].
      destruct (testAtEnd JS_RE ext); [reflexivity|].
      destruct Hl; discriminate. }
    apply JS_RE_test in Ht as (e & He & Hend). apply JS_RE_test.
    exists e. split; [exact He|]. exact (endsWith_trans _ _ _ Hext Hend).
  - intros Hl. f_equal.
    assert (Hv : ext = ".vue").
    { destruct (String.eqb_spec ext ".vue"); [assumption|].
      destruct (testAtEnd JS_RE ext); [|discriminate].
      destruct (endsWith ext "x"); discriminate. }
    destruct (testAtEnd JS_RE path) eqn:Ht; [|reflexivity].
    apply JS_RE_test in Ht as (e & He & Hend).
    rewrite Hv in Hext.
    rewrite (ends_script_not_vue _ _ He Hend) in Hext. discriminate.
Qed.

End Loader.

(** *** The further properties on concrete ids *)

Lemma isVue_filter_only_narrows_witness :
  let imports := Reference.plugins "/app" in
  let id := "/app/pages/index.vue?vue&type=style" in
  isVue id {| type := Some [style] |} = Some true
  /\ isVue id {| type := Some [style; script] |} = Some true
  /\ isVue id noOpts = Some true.
Proof.
  intros imports id.
  assert (H : isVue id {| type := Some [style] |} = Some true)
    by (vm_compute; reflexivity).
  split; [exact H|].
  apply (isVue_filter_only_narrows (imports := imports) id [style]
           [style; script]); [|exact H].
  intros b Hb. apply list_elem_of_singleton in Hb. subst b.
  apply elem_of_cons. left. reflexivity.
Defined.

Lemma nuxt_component_wrapper_is_not_vue_witness :
  let imports := Reference.plugins "/app" in
  isVue "/app/components/Foo.vue?nuxt_component=async&macro=true&vue&type=script"
    noOpts = Some false.
Proof.
  intros imports.
  apply (nuxt_component_wrapper_is_not_vue (imports := imports) _ noOpts
           "file:///app/components/Foo.vue?nuxt_component=async&macro=true&vue&type=script");
    [vm_compute; reflexivity | discriminate | vm_compute; reflexivity].
Defined.

Lemma macro_id_is_vue_witness :
  let imports := Reference.plugins "/app" in
  isVue "/app/pages/index.vue?macro=true" {| type := Some [style] |}
  = Some true
  /\ isVue "/app/pages/index.vue?macro=true&lang.ts" noOpts = Some true.
Proof.
  intros imports. split.
  - apply (macro_id_is_vue (imports := imports) _ _
             "file:///app/pages/index.vue?macro=true");
      [vm_compute; reflexivity | vm_compute; reflexivity
      | vm_compute; reflexivity | left; vm_compute; reflexivity].
  - apply (macro_id_is_vue (imports := imports) _ _
             "file:///app/pages/index.vue?macro=true&lang.ts");
      [vm_compute; reflexivity | vm_compute; reflexivity
      | vm_compute; reflexivity |].
    right. split; [discriminate | left; reflexivity].
Defined.

Lemma vue_block_follows_effective_type_witness :
  let imports := Reference.plugins "/app" in
  isVue "/app/pages/index.vue?vue&type=style&setup=true"
    {| type := Some [script] |} = Some true
  /\ isVue "/app/pages/index.vue?vue&type=template"
       {| type := Some [script; style] |} = Some false
  /\ isVue "/app/pages/index.vue?vue" {| type := Some [script] |}
     = Some false.
Proof.
  intros imports. split; [|split].
  - destruct (vue_block_follows_effective_type (imports := imports)
                "/app/pages/index.vue?vue&type=style&setup=true"
                {| type := Some [script] |}
                "file:///app/pages/index.vue?vue&type=style&setup=true")
      as (Hsetup & _ & _);
      [vm_compute; reflexivity | discriminate | vm_compute; reflexivity
      | vm_compute; reflexivity | vm_compute; reflexivity |].
    rewrite Hsetup by (vm_compute; reflexivity). reflexivity.
  - destruct (vue_block_follows_effective_type (imports := imports)
                "/app/pages/index.vue?vue&type=template"
                {| type := Some [script; style] |}
                "file:///app/pages/index.vue?vue&type=template")
      as (_ & Hblock & _);
      [vm_compute; reflexivity | discriminate | vm_compute; reflexivity
      | vm_compute; reflexivity | vm_compute; reflexivity |].
    rewrite (Hblock template) by (vm_compute; reflexivity). reflexivity.
  - destruct (vue_block_follows_effective_type (imports := imports)
                "/app/pages/index.vue?vue" {| type := Some [script] |}
                "file:///app/pages/index.vue?vue")
      as (_ & _ & Hnone);
      [vm_compute; reflexivity | discriminate | vm_compute; reflexivity
      | vm_compute; reflexivity | vm_compute; reflexivity |].
    rewrite Hnone; [reflexivity | vm_compute; reflexivity | vm_compute; exact I].
Defined.

Lemma empty_filter_accepts_only_bare_and_macro_witness :
  let imports := Reference.plugins "/app" in
  isVue "/app/a.vue" {| type := Some [] |} = Some true.
Proof.
  intros imports.
  apply (empty_filter_accepts_only_bare_and_macro (imports := imports)
           "/app/a.vue" "file:///app/a.vue" eq_refl).
  left. split; vm_compute; reflexivity.
Defined.

Lemma getLoader_decided_by_extension_witness :
  let imports := Reference.plugins "/app" in
  getLoader "components/Chart.jsx" = Some (Some tsx).
Proof.
  intros imports.
  destruct (getLoader_decided_by_extension (imports := imports)
              "components/Chart.jsx" "file:///app/components/Chart.jsx")
    as (_ & Hx & _); [vm_compute; reflexivity|].
  apply Hx. exists ".jsx". split; [|vm_compute; reflexivity].
  apply elem_of_cons. left. reflexivity.
Defined.

Lemma loader_agrees_with_isJS_witness :
  let imports := Reference.plugins "/app" in
  isJS "plugins/init.mjs" = Some true
  /\ isJS "pages/index.vue" = Some false.
Proof.
  intros imports. split.
  - destruct (loader_agrees_with_isJS (imports := imports)
                "plugins/init.mjs" "file:///app/plugins/init.mjs")
      as [Hjs _]; [vm_compute; reflexivity | vm_compute; reflexivity|].
    apply Hjs. left. vm_compute. reflexivity.
  - destruct (loader_agrees_with_isJS (imports := imports)
                "pages/index.vue" "file:///app/pages/index.vue")
      as [_ Hvue]; [vm_compute; reflexivity | vm_compute; reflexivity|].
    apply Hvue. vm_compute. reflexivity.
Defined.


End PluginsMore.

(** * Further properties of the logger shim *)

Module LoggerMore.
Import JS JSFacts ViteLogger LoggerFacts Notions.

Lemma printedCount_app es1 es2 :
  printedCount (es1 ++ es2)%list = printedCount es1 + printedCount es2.
Proof.
  induction es1 as [|[t x l|] es1 IH]; cbn; [reflexivity| |assumption].
  now rewrite IH.
Qed.

Lemma clearedCount_app es1 es2 :
  clearedCount (es1 ++ es2)%list = clearedCount es1 + clearedCount es2.
Proof.
  induction es1 as [|[t x l|] es1 IH]; cbn; [reflexivity|assumption|].
  now rewrite IH.
Qed.

(** *** The reference expression *)

Lemma matchesPrefix_spec r s :
  matchesPrefix r s = true <-> exists u v, s = u ++ v /\ Matches r u.
Proof.
  revert r. induction s as [|c s IH]; intros r; cbn [matchesPrefix].
  - rewrite orb_false_r, nullable_spec. split.
    + intros Hm. now exists "", "".
    + intros (u & v & Hs & Hm). symmetry in Hs.
      now apply append_eq_empty in Hs as [-> _].
  - rewrite orb_true_iff, nullable_spec, IH. split.
    + intros [Hm|(u & v & -> & Hm)].
      * now exists "", (String c s).
      * exists (String c u), v. split; [reflexivity|]. now apply deriv_spec.
    + intros ([|d u] & v & Hs & Hm); [now left|].
      rewrite append_cons in Hs. injection Hs as <- ->. right.
      exists u, v. split; [reflexivity|]. now apply deriv_spec.
Qed.

Lemma Matches_lit t u : Matches (lit t) u <-> u = t.
Proof.
  revert u. induction t as [|c t IH]; intros u; cbn [lit].
  - split; [now inversion 1 | intros ->; constructor].
  - rewrite Matches_Seq. split.
    + intros (s1 & s2 & -> & H1 & H2). inversion H1; subst.
      apply IH in H2 as ->. reflexivity.
    + intros ->. exists (String c ""), t.
      split; [reflexivity|]. split; [constructor | now apply IH].
Qed.

Lemma noSpace_append a b : noSpace (a ++ b) = noSpace a && noSpace b.
Proof.
  induction a as [|c a IH]; [reflexivity|].
  rewrite append_cons. cbn. now rewrite IH, andb_assoc.
Qed.

Lemma Matches_word a :
  Matches (Plus (NoneOf [" "]%char)) a <-> a <> "" /\ noSpace a = true.
Proof.
  split.
  - intros Hm. remember (Plus (NoneOf [" "]%char)) as r eqn:Hr.
    induction Hm as [| | | | | | | | |r' s' H'|r' s1 s2 H1 _ H2 IH2];
      try discriminate; injection Hr as ->.
    + inversion H'; subst. split; [discriminate|].
      cbn in *. unfold notSpace. rewrite orb_false_r in *.
      match goal with H : Ascii.eqb _ _ = false |- _ => now rewrite H end.
    + inversion H1; subst. destruct (IH2 eq_refl) as [_ Hn].
      split; [discriminate|]. rewrite append_cons, append_empty_l.
      cbn in *. unfold notSpace. rewrite orb_false_r in *.
      match goal with H : Ascii.eqb _ _ = false |- _ => now rewrite H end.
  - intros [Hne Hn]. induction a as [|c a IH]; [done|].
    cbn in Hn. apply andb_true_iff in Hn as [Hc Hn].
    assert (H1 : Matches (NoneOf [" "]%char) (String c "")).
    { constructor. cbn. unfold notSpace in Hc.
      apply negb_true_iff in Hc. now rewrite Hc. }
    destruct a as [|d a]; [now apply MPlusOne|].
    change (String c (String d a)) with (String c "" ++ String d a).
    apply MPlusMore; [exact H1|]. apply IH; [discriminate | exact Hn].
Qed.

Lemma takeWhile_word a rest :
  noSpace a = true -> takeWhile notSpace (a ++ String " " rest) = a.
Proof.
  intros Hn. induction a as [|c a IH]; [reflexivity|].
  cbn in Hn. apply andb_true_iff in Hn as [Hc Hn].
  rewrite append_cons. cbn. rewrite Hc. f_equal. now apply IH.
Qed.

(** Where [RUNTIME_RESOLVE_REF_RE] matches at the start of a string. *)
Lemma reference_at_start s :
  matchesPrefix RUNTIME_RESOLVE_REF_RE s = true <->
  exists a rest,
    s = a ++ " referenced in" ++ rest /\ a <> "" /\ noSpace a = true.
Proof.
  rewrite matchesPrefix_spec. unfold RUNTIME_RESOLVE_REF_RE. split.
  - intros (u & v & -> & (a & b & -> & Ha & Hb)%Matches_Seq).
    apply Matches_lit in Hb as ->. apply Matches_word in Ha as [Hne Hn].
    exists a, v. rewrite append_assoc. auto.
  - intros (a & rest & -> & Hne & Hn).
    exists (a ++ " referenced in"), rest. rewrite append_assoc.
    split; [reflexivity|]. apply Matches_Seq.
    exists a, " referenced in". split; [reflexivity|].
    split; [now apply Matches_word | now apply Matches_lit].
Qed.

Lemma startsWith_append p t : startsWith (p ++ t) p = true.
Proof.
  unfold startsWith. induction p as [|c p IH]; [now destruct t|].
  rewrite append_cons. cbn. destruct (ascii_dec c c); [exact IH | done].
Qed.

Lemma includes_startsWith s p : startsWith s p = true -> includes s p = true.
Proof. intros H. destruct s; cbn [includes]; now rewrite H. Qed.

Lemma includes_here p t : includes (p ++ t) p = true.
Proof. apply includes_startsWith, startsWith_append. Qed.

Lemma includes_append_l a b p :
  includes b p = true -> includes (a ++ b) p = true.
Proof.
  intros Hb. induction a as [|c a IH]; [exact Hb|].
  rewrite append_cons. cbn. rewrite IH. apply orb_true_r.
Qed.

(** *** [trim] and the line starts *)

Lemma isStripped_1 c :
  isStripped (String c "") = true -> (N_of_ascii c < 128)%N.
Proof.
  unfold isStripped, codePoint. cbv zeta.
  destruct (N.ltb_spec (N_of_ascii c) 128); [auto | discriminate].
Qed.

Lemma isStripped_2 c1 c2 :
  isStripped (String c1 (String c2 "")) = true ->
  (194 <= N_of_ascii c1 <= 223 /\ 128 <= N_of_ascii c2)%N.
Proof.
  unfold isStripped, codePoint. cbv zeta.
  destruct (utf8_2 _ _) eqn:H; [|discriminate]. intros _.
  apply ReferenceFacts.utf8_2_bounds in H. lia.
Qed.

Lemma isStripped_3 c1 c2 c3 :
  isStripped (String c1 (String c2 (String c3 ""))) = true ->
  (224 <= N_of_ascii c1 /\ 128 <= N_of_ascii c2 /\ 128 <= N_of_ascii c3)%N.
Proof.
  unfold isStripped, codePoint. cbv zeta.
  destruct (utf8_3 _ _ _) eqn:H; [|discriminate]. intros _.
  apply ReferenceFacts.utf8_3_bounds in H. lia.
Qed.

Lemma isStripped_length u :
  isStripped u = true -> 1 <= String.length u <= 3.
Proof.
  destruct u as [|c1 [|c2 [|c3 [|c4 u]]]]; cbn; try discriminate; lia.
Qed.

Lemma trimStart_unfold s :
  trimStart s
  = match whiteSpaceAhead s, s with
    | 1, String _ s1 => trimStart s1
    | 2, String _ (String _ s2) => trimStart s2
    | 3, String _ (String _ (String _ s3)) => trimStart s3
    | _, _ => s
    end.
Proof. now destruct s. Qed.

Lemma trimStart_none s : whiteSpaceAhead s = 0 -> trimStart s = s.
Proof. intros H. rewrite trimStart_unfold, H. reflexivity. Qed.

(** A stripped code point at the start is stripped. *)
Lemma trimStart_stripped u s :
  isStripped u = true -> trimStart (u ++ s) = trimStart s.
Proof.
  intros Hu. destruct u as [|c1 [|c2 [|c3 [|c4 u]]]]; try discriminate Hu.
  - rewrite append_cons, append_empty_l, trimStart_unfold.
    cbn [whiteSpaceAhead]. now rewrite Hu.
  - pose proof (isStripped_2 _ _ Hu) as H2.
    assert (H1 : isStripped (String c1 "") = false).
    { destruct (isStripped (String c1 "")) eqn:E; [|reflexivity].
      apply isStripped_1 in E. lia. }
    rewrite !append_cons, append_empty_l, trimStart_unfold.
    cbn [whiteSpaceAhead]. now rewrite H1, Hu.
  - pose proof (isStripped_3 _ _ _ Hu) as H3.
    assert (H1 : isStripped (String c1 "") = false).
    { destruct (isStripped (String c1 "")) eqn:E; [|reflexivity].
      apply isStripped_1 in E. lia. }
    assert (H2 : isStripped (String c1 (String c2 "")) = false).
    { destruct (isStripped (String c1 (String c2 ""))) eqn:E; [|reflexivity].
      apply isStripped_2 in E. lia. }
    rewrite !append_cons, append_empty_l, trimStart_unfold.
    cbn [whiteSpaceAhead]. now rewrite H1, H2, Hu.
Qed.

Lemma trimStart_lead lead s :
  WhiteSpaces lead -> trimStart (lead ++ s) = trimStart s.
Proof.
  induction 1 as [|u l Hu _ IH]; [reflexivity|].
  now rewrite append_assoc, trimStart_stripped.
Qed.

(** No stripped code point straddles the end of a word that a space
    follows. *)
Lemma whiteSpaceAhead_word a t :
  a <> "" -> whiteSpaceAhead a = 0 ->
  whiteSpaceAhead (a ++ String " " t) = 0.
Proof.
  intros Hne Ha. destruct a as [|c1 [|c2 [|c3 a]]]; [done| | |].
  - rewrite append_cons, append_empty_l.
    cbn [whiteSpaceAhead] in *.
    destruct (isStripped (String c1 "")); [discriminate|].
    destruct (isStripped (String c1 (String " " ""))) eqn:E2.
    { apply isStripped_2 in E2. cbn in E2. lia. }
    destruct t as [|c3 t]; [reflexivity|].
    destruct (isStripped (String c1 (String " " (String c3 "")))) eqn:E3;
      [|reflexivity].
    apply isStripped_3 in E3. cbn in E3. lia.
  - rewrite !append_cons, append_empty_l.
    cbn [whiteSpaceAhead] in *.
    destruct (isStripped (String c1 "")); [discriminate|].
    destruct (isStripped (String c1 (String c2 ""))); [discriminate|].
    destruct (isStripped (String c1 (String c2 (String " " "")))) eqn:E3;
      [|reflexivity].
    apply isStripped_3 in E3. cbn in E3. lia.
  - rewrite !append_cons. exact Ha.
Qed.

(** A text that ends in an ASCII unit that is not stripped is not made of
    stripped code points only. *)
Lemma trimStart_last c y :
  (N_of_ascii c < 128)%N -> isStripped (String c "") = false ->
  trimStart (y ++ String c "") <> "".
Proof.
  intros Hc Hn.
  assert (H : forall n y, String.length y <= n ->
                          trimStart (y ++ String c "") <> "").
  { clear y. induction n as [|n IH]; intros y Hy.
    - destruct y; [|cbn in Hy; lia].
      rewrite append_empty_l, trimStart_none; [discriminate|].
      cbn [whiteSpaceAhead]. now rewrite Hn.
    - destruct y as [|c1 y].
      { rewrite append_empty_l, trimStart_none; [discriminate|].
        cbn [whiteSpaceAhead]. now rewrite Hn. }
      cbn in Hy. rewrite append_cons, trimStart_unfold.
      cbn [whiteSpaceAhead].
      destruct (isStripped (String c1 "")); [apply IH; lia|].
      destruct y as [|c2 y].
      { rewrite append_empty_l.
        destruct (isStripped (String c1 (String c ""))) eqn:E2;
          [|discriminate].
        apply isStripped_2 in E2. lia. }
      cbn in Hy. rewrite append_cons.
      destruct (isStripped (String c1 (String c2 ""))); [apply IH; lia|].
      destruct y as [|c3 y].
      { rewrite append_empty_l.
        destruct (isStripped (String c1 (String c2 (String c "")))) eqn:E3;
          [|discriminate].
        apply isStripped_3 in E3. lia. }
      cbn in Hy. rewrite append_cons.
      destruct (isStripped (String c1 (String c2 (String c3 ""))));
        [apply IH; lia | discriminate]. }
  now apply (H (String.length y)).
Qed.

Lemma trimEnd_last c y :
  (N_of_ascii c < 128)%N -> isStripped (String c "") = false ->
  trimEnd (y ++ String c "") = y ++ String c "".
Proof.
  intros Hc Hn. induction y as [|d y IH].
  - rewrite append_empty_l. cbn [trimEnd].
    pose proof (trimStart_last c "" Hc Hn) as H.
    rewrite append_empty_l in H.
    now rewrite (proj2 (String.eqb_neq _ _) H).
  - rewrite append_cons. cbn [trimEnd].
    pose proof (trimStart_last c (String d y) Hc Hn) as H.
    rewrite append_cons in H.
    now rewrite (proj2 (String.eqb_neq _ _) H), IH.
Qed.

Lemma codePoint_lineTerminator t p :
  codePoint t = Some p -> isLineTerminator p = true -> t ∈ lineTerminators.
Proof.
  unfold isLineTerminator. rewrite !orb_true_iff, !N.eqb_eq.
  unfold lineTerminators.
  destruct t as [|c1 [|c2 [|c3 [|c4 t]]]]; try discriminate; cbn [codePoint];
    cbv zeta.
  - destruct (N.ltb_spec (N_of_ascii c1) 128); [|discriminate].
    intros Hp Hlt. apply (inj Some) in Hp. subst p.
    rewrite <- (ascii_N_embedding c1).
    destruct Hlt as [[[->| ->]|Hlt]|Hlt];
      [rewrite !elem_of_cons; auto 6..| |]; exfalso; lia.
  - destruct (utf8_2 _ _) eqn:H; [|discriminate].
    apply ReferenceFacts.utf8_2_bounds in H.
    intros Hp Hlt. apply (inj Some) in Hp. exfalso. lia.
  - destruct (utf8_3 _ _ _) eqn:H; [|discriminate].
    unfold utf8_3 in H.
    rewrite !orb_true_iff, !andb_true_iff, !ReferenceFacts.between_true,
      !N.eqb_eq in H.
    intros Hp Hlt. apply (inj Some) in Hp.
    rewrite <- (ascii_N_embedding c1), <- (ascii_N_embedding c2),
      <- (ascii_N_embedding c3).
    assert (Hb : N_of_ascii c1 = 226%N /\ N_of_ascii c2 = 128%N
                 /\ (N_of_ascii c3 = 168%N \/ N_of_ascii c3 = 169%N)) by lia.
    destruct Hb as (-> & -> & [->| ->]); rewrite !elem_of_cons; auto 6.
Qed.

Lemma endsWithLineTerminator_spec pre :
  endsWithLineTerminator pre = true ->
  exists pre' t, pre = pre' ++ t /\ t ∈ lineTerminators.
Proof.
  induction pre as [|c pre IH].
  - cbn. discriminate.
  - cbn [endsWithLineTerminator]. intros [H|H]%orb_true_iff.
    + destruct (codePoint (String c pre)) as [p|] eqn:Hp; [|discriminate].
      exists "", (String c pre). split; [reflexivity|].
      now apply (codePoint_lineTerminator _ p).
    + destruct (IH H) as (pre' & t & -> & Ht).
      exists (String c pre'), t. split; [now rewrite append_cons | exact Ht].
Qed.

Lemma lineStart_spec pre :
  lineStart pre = true ->
  pre = "" \/ exists pre' t, pre = pre' ++ t /\ t ∈ lineTerminators.
Proof.
  unfold lineStart. intros [H|H]%orb_true_iff.
  - left. now apply String.eqb_eq.
  - right. now apply endsWithLineTerminator_spec.
Qed.

Lemma matchRef_unfold before s :
  matchRef before s
  = if lineStart before && matchesPrefix RUNTIME_RESOLVE_REF_RE s
    then Some (takeWhile notSpace s)
    else match s with
         | EmptyString => None
         | String c s' => matchRef (before ++ String c "") s'
         end.
Proof. now destruct s. Qed.

Lemma matchRef_found before s id :
  matchRef before s = Some id ->
  exists pre rest,
    s = pre ++ id ++ " referenced in" ++ rest
    /\ id <> "" /\ noSpace id = true
    /\ lineStart (before ++ pre) = true.
Proof.
  revert before. induction s as [|c s IH]; intros before;
    rewrite matchRef_unfold.
  - rewrite andb_false_r. discriminate.
  - destruct (lineStart before && matchesPrefix RUNTIME_RESOLVE_REF_RE (String c s))
      eqn:Hm.
    + apply andb_true_iff in Hm as [Hstart Hm].
      apply reference_at_start in Hm as (a & rest & Hs & Hne & Hn).
      intros Heq. apply (inj Some) in Heq. rewrite Hs in Heq |- *.
      change (" referenced in" ++ rest)
        with (String " " ("referenced in" ++ rest)) in Heq.
      rewrite (takeWhile_word a _ Hn) in Heq. subst id.
      exists "", rest. rewrite append_empty_r. repeat split; auto.
    + intros (pre & rest & -> & Hne & Hn & Hstart)%IH.
      exists (String c pre), rest. repeat split; auto.
      now rewrite append_assoc, append_cons, append_empty_l in Hstart.
Qed.

Section Facts.
Context {env : Surroundings} (config : InlineConfig) (ctx : Ctx).

Lemma printedCount_cleared w type msg options :
  printedCount (cleared config w type msg options) = 0.
Proof. unfold cleared. now destruct (canClearScreen config && _). Qed.

Lemma printedCount_output type msg options s :
  printedCount (events (output config ctx type msg options s).1)
  = printedCount (events s.1)
    + (if suppressed config ctx type msg then 0 else 1).
Proof.
  destruct (suppressed config ctx type msg) eqn:Hs.
  - rewrite (output_suppressed _ _ _ _ _ _ Hs). lia.
  - destruct s as [w l]. rewrite (output_printed _ _ _ _ _ _ _ Hs). cbn.
    rewrite printedCount_app, printedCount_cleared. lia.
Qed.

(** *** A run of repeats *)

Lemma repeats_go_on type msg (rest : list LogErrorOptions) s :
  suppressed config ctx type msg = false ->
  sameAsLast s.1 type msg = true ->
  let s' := foldl (fun s o => output config ctx type msg o s) s rest in
  sameAsLast s'.1 type msg = true
  /\ duplicateCount s'.1 = (duplicateCount s.1 + N.of_nat (length rest))%N
  /\ (rest <> [] ->
      exists older,
        events s'.1
        = Printed type
            (msg ++ colorize "dim"
                      (" (x" ++ pretty (duplicateCount s'.1 + 1)%N ++ ")"))
            (printLevel config) :: older).
Proof.
  intros Hs. induction rest as [|o rest IH] using rev_ind; intros Hsame s'.
  - subst s'. cbn. split; [exact Hsame|]. split; [lia | done].
  - subst s'. rewrite foldl_app. cbn [foldl].
    destruct (IH Hsame) as (Hsame' & Hdc & _).
    destruct (foldl _ s rest) as [w l]. cbn [fst] in *.
    rewrite (output_printed _ _ _ _ _ _ _ Hs). cbn [fst].
    unfold rendered. rewrite Hsame'. cbn.
    split; [|split].
    + unfold sameAsLast. cbn. now rewrite !bool_decide_eq_true_2.
    + rewrite Hdc, length_app. cbn. lia.
    + intros _. eexists. reflexivity.
Qed.

(** *** What a sequence of calls leaves behind *)

Lemma call_hasWarned_iff c s :
  ((exists m, m ∈ warnedMessages s.2) -> hasWarned s.2 = true) ->
  hasWarned (call config ctx c s).2 = true <->
  hasWarned s.2 = true \/ raisesWarning c = true.
Proof.
  intros Hinv. destruct s as [w l]. cbn in Hinv.
  destruct c as [msg opts|msg opts|msg opts|msg opts| |e]; cbn;
    unfold viteLogger.info, viteLogger.warn, viteLogger.warnOnce,
      viteLogger.error; cbn;
    try (rewrite output_hasWarned; cbn; intuition congruence).
  - case_bool_decide as Hin; cbn.
    + rewrite (Hinv (ex_intro _ msg Hin)). intuition.
    + rewrite output_hasWarned. cbn. intuition.
  - intuition congruence.
  - intuition congruence.
Qed.

Lemma calls_hasWarned_iff cs s :
  ((exists m, m ∈ warnedMessages s.2) -> hasWarned s.2 = true) ->
  hasWarned (calls config ctx cs s).2 = true <->
  hasWarned s.2 = true \/ exists c, c ∈ cs /\ raisesWarning c = true.
Proof.
  revert s. induction cs as [|c cs IH]; intros s Hinv.
  - cbn. split; [auto|]. intros [?|(c & Hc & _)]; [done | inversion Hc].
  - rewrite calls_cons, IH, (call_hasWarned_iff c s Hinv).
    + split.
      * intros [[?|?]|(c' & Hin & Hc)]; [auto|right..].
        -- exists c. split; [left | done].
        -- exists c'. split; [now right | done].
      * intros [?|(c' & Hin & Hc)]; [auto|].
        apply elem_of_cons in Hin as [->|Hin]; eauto.
    + intros [m Hm]. apply (call_hasWarned_iff c s Hinv).
      apply call_warnedMessages in Hm as [Hm|[opts ->]]; [|now right].
      left. apply Hinv. now exists m.
Qed.

Lemma calls_loggedErrors_iff cs s e :
  e ∈ loggedErrors (calls config ctx cs s).2 <->
  e ∈ loggedErrors s.2
  \/ exists cs1 c cs2,
       cs = (cs1 ++ c :: cs2)%list /\ carried c = Some e
       /\ reachesPrint config ctx c (calls config ctx cs1 s) = true.
Proof.
  revert s. induction cs as [|c cs IH]; intros s.
  - cbn. split; [auto|]. intros [?|(cs1 & c & cs2 & H & _)]; [done|].
    now destruct cs1.
  - rewrite calls_cons, IH, call_loggedErrors. split.
    + intros [[?|[Hc Hr]]|(cs1 & c' & cs2 & -> & Hc & Hr)]; [auto|right..].
      * now exists [], c, cs.
      * now exists (c :: cs1), c', cs2.
    + intros [?|(cs1 & c' & cs2 & Heq & Hc & Hr)]; [auto|].
      destruct cs1 as [|c0 cs1]; cbn in Heq; injection Heq as -> ->.
      * left. right. auto.
      * right. now exists cs1, c', cs2.
Qed.

End Facts.

(** *** Properties *)

(** X8.  In a run of calls of [output] with one type and message that is
    not suppressed, started where the last pair was another one, the
    repeat counter ends as the number of calls after the first, and the
    last line is the bare message for a single call and carries the suffix
    [(xN)], with [N] the number of calls, otherwise. *)
Theorem run_of_repeats_is_counted
  {env : Surroundings} (config : InlineConfig) (ctx : Ctx)
  (type : LogType.t) (msg : string) (first : LogErrorOptions)
  (rest : list LogErrorOptions) (s : Shared * Logger) :
  suppressed config ctx type msg = false ->
  sameAsLast s.1 type msg = false ->
  let s' :=
    foldl (fun s o => output config ctx type msg o s)
      (output config ctx type msg first s) rest in
  duplicateCount s'.1 = N.of_nat (length rest)
  /\ exists older,
       events s'.1
       = Printed type
           (msg ++ match rest with
                   | [] => ""
                   | _ :: _ =>
                       colorize "dim"
                         (" (x" ++ pretty (N.of_nat (S (length rest))) ++ ")")
                   end)
           (printLevel config) :: older.
Proof.
  intros Hs Hdiff s'.
  set (s1 := output config ctx type msg first s) in *.
  assert (H1 : sameAsLast s1.1 type msg = true
               /\ duplicateCount s1.1 = 0%N
               /\ exists older,
                    events s1.1
                    = Printed type (msg ++ "") (printLevel config) :: older).
  { subst s1. destruct s as [w l]. cbn [fst] in Hdiff.
    rewrite (output_printed _ _ _ _ _ _ _ Hs). cbn [fst].
    unfold rendered. rewrite Hdiff. cbn. split; [|split; [reflexivity|]].
    - unfold sameAsLast. cbn. now rewrite !bool_decide_eq_true_2.
    - eexists. reflexivity. }
  destruct H1 as (Hsame & Hdc & Hev).
  destruct (repeats_go_on config ctx type msg rest s1 Hs Hsame)
    as (_ & Hdc' & Hev').
  fold s' in Hdc', Hev'. rewrite Hdc in Hdc'. split; [lia|].
  destruct rest as [|o rest]; [exact Hev|].
  destruct Hev' as [older Hev']; [discriminate|].
  exists older. rewrite Hev', Hdc'. repeat f_equal. lia.
Qed.

(** X9.  A call of a method hands at most one line to consola, and
    exactly one when it gets as far as the print: the number of printed
    lines goes up by one for such a call and stays for every other. *)
Theorem one_line_per_call_that_prints
  {env : Surroundings} (config : InlineConfig) (ctx : Ctx)
  (c : Call) (s : Shared * Logger) :
  printedCount (events (call config ctx c s).1)
  = printedCount (events s.1)
    + (if reachesPrint config ctx c s then 1 else 0).
Proof.
  destruct s as [w l].
  destruct c as [msg opts|msg opts|msg opts|msg opts| |e]; cbn;
    unfold viteLogger.info, viteLogger.warn, viteLogger.warnOnce,
      viteLogger.error; cbn;
    try (rewrite printedCount_output; cbn;
         now destruct (suppressed config ctx _ msg));
    try lia.
  case_bool_decide; cbn; [lia|].
  rewrite printedCount_output. cbn.
  now destruct (suppressed config ctx _ msg).
Qed.

(** X10.  On a logger made by [createViteLogger], the set of warned
    messages after a sequence of calls holds exactly the messages that
    [warnOnce] was called with, printed or not; no other method adds to
    it. *)
Theorem warnedMessages_are_those_of_warnOnce
  {env : Surroundings} (config : InlineConfig) (ctx : Ctx)
  (w : Shared) (cs : list Call) (msg : string) :
  msg ∈ warnedMessages (calls config ctx cs (w, createViteLogger)).2 <->
  exists opts, WarnOnce msg opts ∈ cs.
Proof.
  rewrite calls_warnedMessages. cbn. split; [|auto].
  intros [Hin|?]; [|done]. now apply not_elem_of_empty in Hin.
Qed.

(** X11.  On a logger made by [createViteLogger], [hasWarned] is true
    after a sequence of calls exactly when the sequence holds a call of
    [warn], [warnOnce] or [error], whether or not that call printed. *)
Theorem hasWarned_iff_some_warning_call
  {env : Surroundings} (config : InlineConfig) (ctx : Ctx)
  (w : Shared) (cs : list Call) :
  hasWarned (calls config ctx cs (w, createViteLogger)).2 = true <->
  exists c, c ∈ cs /\ raisesWarning c = true.
Proof.
  rewrite calls_hasWarned_iff.
  - cbn. split; [|auto]. intros [?|?]; [discriminate | done].
  - cbn. intros [m Hm]. now apply not_elem_of_empty in Hm.
Qed.

(** X12.  On a logger made by [createViteLogger], [hasErrorLogged(e)] is
    true after a sequence of calls exactly when some call of the sequence
    carried [e] and got as far as the print in the state it was made in. *)
Theorem hasErrorLogged_iff_carried_by_printing_call
  {env : Surroundings} (config : InlineConfig) (ctx : Ctx)
  (w : Shared) (cs : list Call) (e : ErrorObject) :
  viteLogger.hasErrorLogged e (calls config ctx cs (w, createViteLogger))
  = true <->
  exists cs1 c cs2,
    cs = (cs1 ++ c :: cs2)%list /\ carried c = Some e
    /\ reachesPrint config ctx c (calls config ctx cs1 (w, createViteLogger))
       = true.
Proof.
  unfold viteLogger.hasErrorLogged. rewrite bool_decide_eq_true.
  rewrite calls_loggedErrors_iff. cbn. split; [|auto].
  intros [He|?]; [|done]. now apply not_elem_of_empty in He.
Qed.

(** X13.  Where the screen cannot be cleared (no terminal, a CI run, or
    [config.clearScreen] off), no logging call clears it, not even a
    repeat or a call with [options.clear]; the method [clearScreen] still
    does, once per call. *)
Theorem logging_never_clears_without_terminal
  {env : Surroundings} (config : InlineConfig) (ctx : Ctx)
  (c : Call) (s : Shared * Logger) :
  hasTTY = false \/ isCI = true \/ config_clearScreen config = false ->
  clearedCount (events (call config ctx c s).1)
  = clearedCount (events s.1)
    + match c with ClearScreen => 1 | _ => 0 end.
Proof.
  intros Hno.
  assert (Hcan : canClearScreen config = false).
  { unfold canClearScreen. destruct Hno as [H|[H|H]]; rewrite H;
      [reflexivity | now rewrite andb_false_r | apply andb_false_r]. }
  assert (Hout : forall type msg options s,
             clearedCount (events (output config ctx type msg options s).1)
             = clearedCount (events s.1)).
  { intros type msg options [w l].
    destruct (suppressed config ctx type msg) eqn:Hs.
    - now rewrite (output_suppressed _ _ _ _ _ _ Hs).
    - rewrite (output_printed _ _ _ _ _ _ _ Hs). cbn.
      unfold cleared. now rewrite Hcan. }
  destruct s as [w l].
  destruct c as [msg opts|msg opts|msg opts|msg opts| |e]; cbn;
    unfold viteLogger.info, viteLogger.warn, viteLogger.warnOnce,
      viteLogger.error; cbn;
    try (rewrite Hout; cbn; lia); try lia.
  case_bool_decide; cbn; [lia|]. rewrite Hout. cbn. lia.
Qed.

(** X14.  The repeat counter and the last pair belong to the module, the
    set of warned messages to each logger: when a second logger, fresh
    from [createViteLogger], is asked to [warnOnce] a message that a first
    logger has just warned once, it prints the message again, and as a
    repeat that continues the count of the first. *)
Theorem second_logger_repeats_the_first
  {env : Surroundings} (config1 config2 : InlineConfig) (ctx1 ctx2 : Ctx)
  (w : Shared) (msg : string) (opts1 opts2 : option LogErrorOptions) :
  suppressed config1 ctx1 LogType.warn msg = false ->
  suppressed config2 ctx2 LogType.warn msg = false ->
  let s1 := viteLogger.warnOnce config1 ctx1 msg opts1 (w, createViteLogger) in
  let s2 :=
    viteLogger.warnOnce config2 ctx2 msg opts2 (s1.1, createViteLogger) in
  duplicateCount s2.1 = (duplicateCount s1.1 + 1)%N
  /\ exists older,
       events s2.1
       = Printed LogType.warn
           (msg ++ colorize "dim"
                     (" (x" ++ pretty (duplicateCount s2.1 + 1)%N ++ ")"))
           (printLevel config2) :: older.
Proof.
  intros H1 H2 s1 s2. subst s2 s1. unfold viteLogger.warnOnce. cbn.
  rewrite !bool_decide_eq_false_2 by apply not_elem_of_empty. cbn.
  rewrite (output_printed _ _ _ _ _ _ _ H1). cbn.
  rewrite (output_printed _ _ _ _ _ _ _ H2). cbn.
  unfold rendered, sameAsLast. cbn.
  rewrite !bool_decide_eq_true_2 by reflexivity. cbn.
  split; [reflexivity|]. eexists. reflexivity.
Qed.

(** X15.  When the output directory is the root itself, so that its
    relative path is empty, [ctx.hideOutput] silences every [info]
    message, since every message includes the empty string ([DEBUG] not
    set). *)
Theorem hideOutput_with_empty_outDir_silences_info
  {env : Surroundings} (config : InlineConfig) (ctx : Ctx)
  (msg : string) (opts : option LogErrorOptions) (s : Shared * Logger) :
  DEBUG = false ->
  hideOutput ctx = true ->
  relativeOutDir config = "" ->
  viteLogger.info config ctx msg opts s = s.
Proof.
  intros Hd Hh Hr. unfold viteLogger.info. apply output_suppressed.
  unfold suppressed. rewrite Hd, Hh, Hr. cbn.
  assert (Hi : includes msg "" = true) by now destruct msg.
  rewrite Hi. apply orb_true_r.
Qed.

(** X16.  Nothing else is dropped: with [DEBUG] set, or for a message
    that fits none of the three suppressed patterns, [output] hands one
    line to consola, which begins with the message. *)
Theorem other_messages_are_printed
  {env : Surroundings} (config : InlineConfig) (ctx : Ctx)
  (type : LogType.t) (msg : string) (options : LogErrorOptions)
  (w : Shared) (l : Logger) :
  DEBUG = true
  \/ ((startsWith msg "Sourcemap" = false \/ includes msg "node_modules" = false)
      /\ (includes msg unresolvedAtBuildTime = false
          \/ forall id, matchRef "" (trim msg) = Some id ->
                        resolveFromPublicAssets id = false)
      /\ (type <> LogType.info \/ hideOutput ctx = false
          \/ includes msg (relativeOutDir config) = false)) ->
  exists suffix,
    events (output config ctx type msg options (w, l)).1
    = (Printed type (msg ++ suffix) (printLevel config)
       :: cleared config w type msg options ++ events w)%list.
Proof.
  intros Hcase.
  assert (Hs : suppressed config ctx type msg = false).
  { unfold suppressed. destruct Hcase as [->|(H1 & H2 & H3)]; [reflexivity|].
    apply andb_false_iff. right.
    apply orb_false_iff. split; [apply orb_false_iff; split|].
    - apply andb_false_iff. tauto.
    - destruct H2 as [->|H2]; [reflexivity|].
      destruct (matchRef "" (trim msg)) as [id|]; [|apply andb_false_r].
      rewrite (H2 id eq_refl). now rewrite !andb_false_r.
    - destruct H3 as [H3|[->| ->]].
      + now rewrite bool_decide_eq_false_2.
      + now rewrite andb_false_r.
      + apply andb_false_r. }
  rewrite (output_printed _ _ _ _ _ _ _ Hs). cbn. unfold rendered.
  eexists. reflexivity.
Qed.

(** X17.  The id that [output] takes from a message with
    [RUNTIME_RESOLVE_REF_RE] is never empty, holds no space character
    (it may hold line breaks), and stands right before the words
    [referenced in], at the start of the text or just after one of the
    four line terminators LF, CR, U+2028 and U+2029. *)
Theorem referenced_id_is_a_word_at_line_start (s id : string) :
  matchRef "" s = Some id ->
  id <> "" /\ noSpace id = true
  /\ exists pre rest,
       s = pre ++ id ++ " referenced in" ++ rest
       /\ (pre = ""
           \/ exists pre' t, pre = pre' ++ t /\ t ∈ lineTerminators).
Proof.
  intros (pre & rest & Hs & Hne & Hn & Hstart)%matchRef_found.
  split; [exact Hne|]. split; [exact Hn|].
  exists pre, rest. split; [exact Hs|].
  rewrite append_empty_l in Hstart. now apply lineStart_spec.
Qed.

(** X18.  Vite's warning about a reference left for the runtime, in the
    form [<url> referenced in <importer> didn't resolve at build time,
    ...], possibly after leading white space of any kind that [trim]
    strips, is dropped for every [url] that holds no space, does not
    itself start with white space and resolves among the public assets,
    whatever the log type ([DEBUG] not set). *)
Theorem public_asset_warning_is_dropped
  {env : Surroundings} (config : InlineConfig) (ctx : Ctx)
  (type : LogType.t) (lead url importer : string)
  (options : LogErrorOptions) (s : Shared * Logger) :
  DEBUG = false ->
  WhiteSpaces lead ->
  url <> "" ->
  whiteSpaceAhead url = 0 ->
  noSpace url = true ->
  resolveFromPublicAssets url = true ->
  output config ctx type
    (lead ++ url ++ " referenced in " ++ importer ++ " "
     ++ unresolvedAtBuildTime)
    options s = s.
Proof.
  intros Hd Hlead Hne Hws Hn Hpub. apply output_suppressed.
  set (tail := "referenced in " ++ importer ++ " " ++ unresolvedAtBuildTime).
  change (" referenced in " ++ importer ++ " " ++ unresolvedAtBuildTime)
    with (String " " tail).
  assert (Htrim : trim (lead ++ url ++ String " " tail)
                  = url ++ String " " tail).
  { unfold trim.
    rewrite (trimStart_lead _ _ Hlead),
      (trimStart_none _ (whiteSpaceAhead_word _ _ Hne Hws)).
    set (body :=
      "didn't resolve at build time, it will remain unchanged to be resolved at runtim").
    replace (url ++ String " " tail)
      with ((url ++ " referenced in " ++ importer ++ " " ++ body)
            ++ String "e" "").
    - apply trimEnd_last; [cbn; lia | reflexivity].
    - subst tail. rewrite !append_assoc. reflexivity. }
  assert (Hid : matchRef "" (url ++ String " " tail) = Some url).
  { rewrite matchRef_unfold.
    rewrite (proj2 (reference_at_start _)).
    - cbn. now rewrite takeWhile_word.
    - exists url, (" " ++ importer ++ " " ++ unresolvedAtBuildTime).
      split; [reflexivity | auto]. }
  unfold suppressed. rewrite Hd, Htrim, Hid, Hpub.
  assert (Hinc : includes (lead ++ url ++ String " " tail)
                   unresolvedAtBuildTime = true).
  { do 2 apply includes_append_l.
    replace (String " " tail)
      with ((" referenced in " ++ importer ++ " ")
            ++ unresolvedAtBuildTime ++ "")
      by (subst tail; now rewrite !append_assoc, append_empty_r).
    apply includes_append_l, includes_here. }
  rewrite Hinc.
  assert (Ht : truthy url = true).
  { unfold truthy. now rewrite (proj2 (String.eqb_neq url "") Hne). }
  rewrite Ht. cbn. now rewrite orb_true_r.
Qed.

(** X19.  A call that does not get as far as the print leaves the repeat
    counter, the last pair and the level of consola as they are, and
    hands no line to consola; so a run of repeats goes on across
    [clearScreen], [hasErrorLogged], a suppressed message and a repeated
    [warnOnce]. *)
Theorem calls_that_do_not_print_keep_the_counter
  {env : Surroundings} (config : InlineConfig) (ctx : Ctx)
  (c : Call) (s : Shared * Logger) :
  reachesPrint config ctx c s = false ->
  let w' := (call config ctx c s).1 in
  duplicateCount w' = duplicateCount s.1
  /\ lastType w' = lastType s.1
  /\ lastMsg w' = lastMsg s.1
  /\ level w' = level s.1
  /\ events w'
     = match c with
       | ClearScreen => ScreenCleared :: events s.1
       | _ => events s.1
       end.
Proof.
  destruct s as [w l].
  destruct c as [msg opts|msg opts|msg opts|msg opts| |e]; cbn;
    unfold viteLogger.info, viteLogger.warn, viteLogger.warnOnce,
      viteLogger.error; cbn.
  1, 2, 4: intros Hs%negb_false_iff;
    rewrite (output_suppressed _ _ _ _ _ _ Hs); cbn; auto.
  2, 3: intros _; auto.
  case_bool_decide as Hin; cbn; [auto|].
  intros Hs%negb_false_iff.
  rewrite (output_suppressed _ _ _ _ _ _ Hs). cbn. auto.
Qed.

(** *** The further properties on concrete runs *)

Lemma run_of_repeats_is_counted_witness :
  let env := Reference.logger false in
  let ctx := {| hideOutput := false |} in
  let s :=
    foldl (fun s o => output Reference.config ctx LogType.warn "slow" o s)
      (output Reference.config ctx LogType.warn "slow" noOptions
         (Reference.shared, createViteLogger))
      [noOptions; noOptions] in
  duplicateCount s.1 = 2%N
  /\ exists older,
       events s.1
       = Printed LogType.warn ("slow" ++ Reference.colorize "dim" " (x3)") 3
         :: older.
Proof.
  intros env ctx s.
  apply (run_of_repeats_is_counted (env := env) Reference.config ctx
           LogType.warn "slow" noOptions [noOptions; noOptions]
           (Reference.shared, createViteLogger));
    vm_compute; reflexivity.
Defined.

Lemma logging_never_clears_without_terminal_witness :
  let env := Reference.logger false in
  let ctx := {| hideOutput := false |} in
  let s :=
    viteLogger.warn Reference.config ctx "slow" None
      (Reference.shared, createViteLogger) in
  clearedCount
    (events
       (call Reference.config ctx
          (Warn "slow" (Some {| options_clear := true; options_error := None |}))
          s).1)
  = 0.
Proof.
  intros env ctx s.
  rewrite (logging_never_clears_without_terminal (env := env)
             Reference.config ctx _ s) by (left; reflexivity).
  vm_compute. reflexivity.
Defined.

Lemma second_logger_repeats_the_first_witness :
  let env := Reference.logger false in
  let ctx := {| hideOutput := false |} in
  let s1 :=
    viteLogger.warnOnce Reference.config ctx "deprecated" None
      (Reference.shared, createViteLogger) in
  let s2 :=
    viteLogger.warnOnce Reference.config ctx "deprecated" None
      (s1.1, createViteLogger) in
  duplicateCount s2.1 = 1%N.
Proof.
  intros env ctx s1 s2.
  destruct (second_logger_repeats_the_first (env := env)
              Reference.config Reference.config ctx ctx Reference.shared
              "deprecated" None None) as [Hcount _];
    [vm_compute; reflexivity | vm_compute; reflexivity |].
  subst s2 s1. rewrite Hcount. vm_compute. reflexivity.
Defined.

Lemma hideOutput_with_empty_outDir_silences_info_witness :
  let env := Reference.logger false in
  let ctx := {| hideOutput := true |} in
  let config :=
    {| root := "/app"; outDir := ""; logLevel := None;
       config_clearScreen := false |} in
  let s := (Reference.shared, createViteLogger) in
  viteLogger.info config ctx "vite v5.2.11 building for production..." None s
  = s.
Proof.
  intros env ctx config s.
  apply (hideOutput_with_empty_outDir_silences_info (env := env) config ctx);
    reflexivity.
Defined.

Lemma other_messages_are_printed_witness :
  let env := Reference.logger false in
  let ctx := {| hideOutput := true |} in
  let ls :=
    String (ascii_of_N 226) (String (ascii_of_N 128)
      (String (ascii_of_N 168) "")) in
  let msg :=
    "left as is:" ++ ls ++ "/logo.svg referenced in /app/assets/main.css "
    ++ unresolvedAtBuildTime in
  exists suffix,
    events
      (output Reference.config ctx LogType.warn msg noOptions
         (Reference.shared, createViteLogger)).1
    = [Printed LogType.warn (msg ++ suffix) 3].
Proof.
  intros env ctx ls msg.
  destruct (other_messages_are_printed (env := env) Reference.config ctx
              LogType.warn msg noOptions Reference.shared createViteLogger)
    as [suffix Hev].
  - right. split; [left; vm_compute; reflexivity|].
    split; [|left; discriminate].
    right. intros id Hid. vm_compute in Hid.
    apply (inj Some) in Hid. subst id. vm_compute. reflexivity.
  - exists suffix. rewrite Hev. vm_compute. reflexivity.
Defined.

Lemma referenced_id_is_a_word_at_line_start_witness :
  let ps :=
    String (ascii_of_N 226) (String (ascii_of_N 128)
      (String (ascii_of_N 169) "")) in
  let text :=
    "warning: left as is" ++ ps
    ++ "/logo.svg referenced in /app/assets/main.css" in
  matchRef "" text = Some "/logo.svg"
  /\ noSpace "/logo.svg" = true.
Proof.
  intros ps text.
  assert (H : matchRef "" text = Some "/logo.svg") by (vm_compute; reflexivity).
  split; [exact H|].
  exact (proj1 (proj2 (referenced_id_is_a_word_at_line_start _ _ H))).
Defined.

Lemma public_asset_warning_is_dropped_witness :
  let env := Reference.logger false in
  let ctx := {| hideOutput := false |} in
  let s := (Reference.shared, createViteLogger) in
  let nbsp := String (ascii_of_N 194) (String (ascii_of_N 160) "") in
  output Reference.config ctx LogType.error
    ((nbsp ++ " ") ++ "/favicon.ico" ++ " referenced in "
     ++ "/app/assets/main.css" ++ " " ++ unresolvedAtBuildTime)
    noOptions s = s.
Proof.
  intros env ctx s nbsp.
  apply (public_asset_warning_is_dropped (env := env) Reference.config ctx
           LogType.error (nbsp ++ " ") "/favicon.ico" "/app/assets/main.css"
           noOptions s);
    [reflexivity | | discriminate | reflexivity
    | vm_compute; reflexivity | vm_compute; reflexivity].
  apply (WhiteSpaces_cons nbsp " "); [reflexivity|].
  apply (WhiteSpaces_cons " " ""); [reflexivity | constructor].
Defined.

Lemma calls_that_do_not_print_keep_the_counter_witness :
  let env := Reference.logger false in
  let ctx := {| hideOutput := false |} in
  let s :=
    calls Reference.config ctx [WarnOnce "deprecated" None]
      (Reference.shared, createViteLogger) in
  lastMsg (call Reference.config ctx (WarnOnce "deprecated" None) s).1
  = Some "deprecated"
  /\ duplicateCount (call Reference.config ctx ClearScreen s).1 = 0%N.
Proof.
  intros env ctx s. split.
  - destruct (calls_that_do_not_print_keep_the_counter (env := env)
                Reference.config ctx (WarnOnce "deprecated" None) s)
      as (_ & _ & Hmsg & _); [vm_compute; reflexivity|].
    rewrite Hmsg. vm_compute. reflexivity.
  - destruct (calls_that_do_not_print_keep_the_counter (env := env)
                Reference.config ctx ClearScreen s)
      as (Hcount & _); [reflexivity|].
    rewrite Hcount. vm_compute. reflexivity.
Defined.


End LoggerMore.
